(** * PQC benchmark suite: a shallow embedding of the benchmark engine

    The development follows the Python sources
      - [src/runner.py]     (BenchmarkRunner: timing, statistics, phases),
      - [src/algorithms.py] (provider adapter: KEM / Signature handles),
      - [src/monitor.py]    (SystemMonitor: the sampling loop).

    Python floats are idealised as rationals ([Q]); exceptions are an
    explicit result type; everything the interpreter or the host supplies
    (clocks, provider modules, sensors, entropy, the file system) is an
    oracle held in an environment record. *)

From Stdlib Require Import Ascii String ZArith QArith Qround Lia Lqa.
From Stdlib Require Import Sorted ZifyNat.
From stdpp Require Import base option list strings gmap pretty.

Local Open Scope Z_scope.

(** ** Exceptions and results *)

(** The Python exception classes that occur in the three modules. The
    last two derive from [BaseException] only. *)
Inductive exn : Type :=
| ImportError
| NotImplementedError
| ValueError
| AttributeError
| TypeError
| KeyError
| StatisticsError
| OverflowError
| NoSuchProcess
| AccessDenied
| OSError
| RuntimeError
| KeyboardInterrupt
| SystemExit.

Global Instance exn_eq_dec : EqDecision exn.
Proof. solve_decision. Defined.

(** [isinstance(e, Exception)]: what an [except Exception] clause catches. *)
Definition is_Exception (e : exn) : bool :=
  match e with
  | KeyboardInterrupt | SystemExit => false
  | _ => true
  end.

(** The result of running a piece of code: a value, a raised exception, or
    a loop that used up its fuel (only the wall-clock bounded stability
    loop can do that). *)
Inductive outcome (A : Type) : Type :=
| Ok (a : A)
| Raise (e : exn)
| OutOfFuel.
Arguments Ok {A} a.
Arguments Raise {A} e.
Arguments OutOfFuel {A}.

Global Instance outcome_ret : MRet outcome := @Ok.
Global Instance outcome_bind : MBind outcome := λ A B f c,
  match c with
  | Ok a => f a
  | Raise e => Raise e
  | OutOfFuel => OutOfFuel
  end.

(** ** Stats aggregator ([runner.py], [_calculate_stats]) *)

(** [math.sqrt] on floats: any non-negative valued function. *)
Class FloatSqrt : Type := {
  fsqrt : Q → Q;
  fsqrt_nonneg : ∀ x : Q, (0 <= fsqrt x)%Q
}.

(** A concrete square root: rounded down on a grid of 2^-52. *)
Definition sqrt_down (x : Q) : Q :=
  Z.sqrt (Qfloor (x * inject_Z (2 ^ 104))) # (2 ^ 52).

Definition Qltb (x y : Q) : bool := negb (Qle_bool y x).

(** Sums keep their result in lowest terms, as Python's exact [Fraction]
    arithmetic inside [statistics] does; [Qred] does not change the value. *)
Definition sumQ (l : list Q) : Q := foldr (λ x acc, Qred (x + acc)) 0%Q l.

Definition lenQ (l : list Q) : Q := inject_Z (Z.of_nat (length l)).

(** [statistics.mean] *)
Definition mean (l : list Q) : outcome Q :=
  match l with
  | [] => Raise StatisticsError
  | _ => Ok (sumQ l / lenQ l)%Q
  end.

(** [sorted]: insertion into an ascending list. *)
Fixpoint insert_sorted (x : Q) (l : list Q) : list Q :=
  match l with
  | [] => [x]
  | y :: l' => if Qle_bool x y then x :: l else y :: insert_sorted x l'
  end.

Definition sorted (l : list Q) : list Q := foldr insert_sorted [] l.

(** [statistics.median] *)
Definition median (l : list Q) : outcome Q :=
  let data := sorted l in
  let n := length data in
  if (n =? 0)%nat then Raise StatisticsError
  else if Nat.odd n then Ok (nth (n / 2) data 0%Q)
  else Ok ((nth (n / 2 - 1) data 0%Q + nth (n / 2) data 0%Q) / 2)%Q.

(** [np.percentile(a, q)] with the default (linear) method: the virtual
    index is [(n-1) * q/100], the result interpolates between the order
    statistics below and above it. *)
Definition percentile (l : list Q) (q : nat) : Q :=
  let data := sorted l in
  let n := length data in
  let k := ((n - 1) * q)%nat in
  let prev := (k / 100)%nat in
  let next := Nat.min (prev + 1) (n - 1) in
  let gamma := (Z.of_nat (k mod 100) # 100)%Q in
  let a := nth prev data 0%Q in
  let b := nth next data 0%Q in
  (a + (b - a) * gamma)%Q.

(** [min] and [max]: the first smallest / largest element. *)
Definition pymin (l : list Q) : outcome Q :=
  match l with
  | [] => Raise ValueError
  | x :: l' => Ok (foldl (λ m y, if Qltb y m then y else m) x l')
  end.

Definition pymax (l : list Q) : outcome Q :=
  match l with
  | [] => Raise ValueError
  | x :: l' => Ok (foldl (λ m y, if Qltb m y then y else m) x l')
  end.

(** [statistics.stdev]: square root of the sample variance. *)
Definition variance (l : list Q) : Q :=
  let m := (sumQ l / lenQ l)%Q in
  (sumQ (map (λ x, Qred ((x - m) * (x - m)))%Q l) / (lenQ l - 1))%Q.

Definition stdev `{FloatSqrt} (l : list Q) : outcome Q :=
  if (length l <? 2)%nat then Raise StatisticsError
  else Ok (fsqrt (variance l)).

Record StatSummary : Type := {
  avg_us : Q;
  median_us : Q;
  p99_us : Q;
  min_us : Q;
  max_us : Q;
  std_dev_us : Q;
  throughput_ops_sec : Q
}.

(** The first magnitude that the conversion of an [int] to a float
    rejects: the conversion rounds to nearest, ties to even, so that every
    int below [2^1024 - 2^970] in magnitude rounds to a finite double and
    every other one overflows. *)
Definition float_limit : Z := 2 ^ 1024 - 2 ^ 970.

Definition float_fits (l : Z) : bool := Z.abs l <? float_limit.

(** [float(l)] on an [int]: [OverflowError] (int too large to convert to
    float) beyond the range of the doubles. *)
Definition float_of_int (l : Z) : outcome Q :=
  if float_fits l then Ok (inject_Z l) else Raise OverflowError.

(** [l / 1000.0]: nanoseconds to microseconds. The division of an [int]
    by a float converts the int first. *)
Definition to_us (l : Z) : outcome Q :=
  x ← float_of_int l; Ok (Qred (x / 1000))%Q.

(** The list comprehension [[f x for x in l]]: the first failure ends it. *)
Fixpoint comprehension {A B} (f : A → outcome B) (l : list A)
  : outcome (list B) :=
  match l with
  | [] => Ok []
  | x :: l' => y ← f x; ys ← comprehension f l'; Ok (y :: ys)
  end.

Definition _calculate_stats `{FloatSqrt} (latencies_ns : list Z)
  : outcome StatSummary :=
  latencies ← comprehension to_us latencies_ns;
  avg ← mean latencies;
  med ← median latencies;
  let p99 := percentile latencies 99 in
  mn ← pymin latencies;
  mx ← pymax latencies;
  sd ← (if (1 <? length latencies)%nat then stdev latencies else Ok 0%Q);
  thr ← (m ← mean latencies;
         if Qltb 0 m then m' ← mean latencies; Ok (1000000 / m')%Q
         else Ok 0%Q);
  Ok {| avg_us := avg; median_us := med; p99_us := p99; min_us := mn;
        max_us := mx; std_dev_us := sd; throughput_ops_sec := thr |}.

Lemma sqrt_down_nonneg (x : Q) : (0 <= sqrt_down x)%Q.
Proof.
  unfold sqrt_down, Qle. simpl. rewrite Z.mul_1_r. apply Z.sqrt_nonneg.
Qed.

Global Instance sqrt_down_FloatSqrt : FloatSqrt :=
  {| fsqrt := sqrt_down; fsqrt_nonneg := sqrt_down_nonneg |}.


(** ** Python values at the provider boundary *)

Definition bytes : Type := list Byte.byte.

Global Instance byte_eq_dec : EqDecision Byte.byte := Byte.byte_eq_dec.

Inductive pyval : Type :=
| PyNone
| PyBool (b : bool)
| PyInt (z : Z)
| PyStr (s : string)
| PyBytes (b : bytes)
| PyByteArray (b : bytes).

(** [isinstance(x, bytes)] *)
Definition is_bytes (x : pyval) : bool :=
  match x with PyBytes _ => true | _ => false end.

(** The constructor call [bytes(x)]. *)
Definition py_bytes (x : pyval) : outcome pyval :=
  match x with
  | PyBytes b | PyByteArray b => Ok (PyBytes b)
  | PyInt z =>
      if z <? 0 then Raise ValueError
      else Ok (PyBytes (replicate (Z.to_nat z) Byte.x00))
  | PyBool b => Ok (PyBytes (if b then [Byte.x00] else []))
  | PyStr _ | PyNone => Raise TypeError
  end.

(** [len(x)] *)
Definition py_len (x : pyval) : outcome nat :=
  match x with
  | PyBytes b | PyByteArray b => Ok (length b)
  | PyStr s => Ok (String.length s)
  | _ => Raise TypeError
  end.

(** [x == y] *)
Definition py_eq (x y : pyval) : bool :=
  match x, y with
  | PyNone, PyNone => true
  | (PyBytes a | PyByteArray a), (PyBytes b | PyByteArray b) =>
      bool_decide (a = b)
  | PyStr a, PyStr b => bool_decide (a = b)
  | PyBool a, PyBool b => bool_decide (a = b)
  | PyInt a, PyInt b => a =? b
  | PyBool a, PyInt b | PyInt b, PyBool a => (if a then 1 else 0) =? b
  | _, _ => false
  end.

(** A loaded provider module: the attributes the adapter looks up. An
    absent attribute is [None]. A callable's last argument is the index
    of the call among all provider calls of the run; it stands for the
    provider's hidden state and randomness. *)
Record pymodule : Type := {
  mod_generate_keypair : option (nat → outcome (pyval * pyval));
  mod_encrypt : option (pyval → nat → outcome (pyval * pyval));
  mod_decrypt : option (pyval → pyval → nat → outcome pyval);
  mod_sign : option (pyval → pyval → nat → outcome pyval);
  mod_verify : option (pyval → pyval → pyval → nat → outcome pyval);
  mod_open : option (pyval → pyval → nat → outcome pyval)
}.

(** ** Configuration, result and sample documents *)

(** One entry of [algorithms.kem] / [algorithms.sign]; [other_keys] are
    keys of the YAML entry that the code never reads. *)
Record AlgorithmSpec : Type := {
  item_name : string;
  item_implementation : string;
  payload_sizes : option (list Z);
  message_sizes : option (list Z);
  other_keys : list (string * Z)
}.

Record Config : Type := {
  output_dir : option string;
  warmup_iterations : Z;
  long_run_duration_seconds : Q;
  sampling_interval_seconds : Q;
  execution_other_keys : list (string * Z);
  algorithms_kem : option (list AlgorithmSpec);
  algorithms_sign : option (list AlgorithmSpec)
}.

Record ResourceSample : Type := {
  timestamp : Q;
  cpu_percent : Q;
  memory_rss : Z;
  system_cpu_percent : Q;
  cpu_freq_current : option Q
}.

Record Metadata : Type := {
  start_time : string;
  platform : string;
  processor : string;
  config : Config;
  end_time : option string
}.

Inductive document : Type :=
| MonitorDoc (data_points : list ResourceSample)
| ResultDoc (metadata : Metadata)
            (micro : gmap string (gmap string StatSummary)).

(** ** Logging *)

Inductive level : Type := DEBUG | INFO | WARNING | ERROR.

(** One constructor per logging call of the sources, with the values the
    message is formatted from. *)
Inductive log_msg : Type :=
| Failed_to_load (module_name name : string) (e : exn)
| KeyGen_debug (name : string) (pk_len sk_len : nat)
| Warming_up (name : string) (iterations : Z)
| Running_micro_benchmarks (name : string)
| Starting_stability_test (duration : Q)
| Error_in_stability_test (name : string) (e : exn)
| Stability_test_progress (elapsed : Z) (duration : Q)
| Stability_test_completed
| High_system_CPU (cpu : Q)
| System_CPU_normal (cpu : Q)
| Benchmark_interrupted
| Benchmark_failed (e : exn)
| Results_saved (file : string)
| Monitor_started (interval : Q)
| Monitor_stopped
| Monitor_data_saved (file : string)
| Failed_to_save_monitor_data (e : exn).

(** ** The host and the mutable state *)

(** What one pass of the sampling loop reads from [psutil] and the clock. *)
Record tick : Type := {
  tick_time : Q;
  tick_process_cpu_percent : outcome Q;
  tick_memory_info : outcome Z;
  tick_system_cpu_percent : outcome Q;
  tick_cpu_freq : outcome (option Q)
}.

(** The values of [time.perf_counter_ns()]: the interpreter keeps the
    clock as a signed 64-bit count of nanoseconds. *)
Definition int64 (t : Z) : Prop := - 2 ^ 63 <= t < 2 ^ 63.

(** Oracles. Clocks and entropy are indexed by the number of reads so far.
    [sampler_ticks] are the passes the sampling thread makes before it
    sees the stop flag. *)
Record env : Type := {
  perf_counter_ns : nat → Z;
  perf_counter_ns_int64 : ∀ n, int64 (perf_counter_ns n);
  time_time : nat → Q;
  datetime_now : nat → string;
  platform_platform : string;
  platform_processor : string;
  psutil_cpu_percent : Q;
  import_module : string → outcome pymodule;
  os_urandom : nat → Byte.byte;
  sampler_ticks : list tick;
  writable : string → bool
}.

(** Whether the sampling thread exists, and whether it has been joined. *)
Inductive thread_state : Type := NoThread | Started | Joined.

Record world : Type := {
  log : list (level * log_msg);
  perf_reads : nat;
  wall_reads : nat;
  provider_calls : nat;
  entropy_read : nat;
  files : gmap string document;
  stop_event : bool;
  thread : thread_state;
  data_points : list ResourceSample;
  micro_benchmarks : gmap string (gmap string StatSummary)
}.

(** State updates, one per mutable component. *)
Definition add_log (lvl : level) (m : log_msg) (w : world) : world :=
  {| log := log w ++ [(lvl, m)]; perf_reads := perf_reads w;
     wall_reads := wall_reads w; provider_calls := provider_calls w;
     entropy_read := entropy_read w; files := files w;
     stop_event := stop_event w; thread := thread w;
     data_points := data_points w; micro_benchmarks := micro_benchmarks w |}.

Definition count_perf_read (w : world) : world :=
  {| log := log w; perf_reads := S (perf_reads w);
     wall_reads := wall_reads w; provider_calls := provider_calls w;
     entropy_read := entropy_read w; files := files w;
     stop_event := stop_event w; thread := thread w;
     data_points := data_points w; micro_benchmarks := micro_benchmarks w |}.

Definition count_wall_read (w : world) : world :=
  {| log := log w; perf_reads := perf_reads w;
     wall_reads := S (wall_reads w); provider_calls := provider_calls w;
     entropy_read := entropy_read w; files := files w;
     stop_event := stop_event w; thread := thread w;
     data_points := data_points w; micro_benchmarks := micro_benchmarks w |}.

Definition count_provider_call (w : world) : world :=
  {| log := log w; perf_reads := perf_reads w;
     wall_reads := wall_reads w; provider_calls := S (provider_calls w);
     entropy_read := entropy_read w; files := files w;
     stop_event := stop_event w; thread := thread w;
     data_points := data_points w; micro_benchmarks := micro_benchmarks w |}.

Definition count_entropy (n : nat) (w : world) : world :=
  {| log := log w; perf_reads := perf_reads w;
     wall_reads := wall_reads w; provider_calls := provider_calls w;
     entropy_read := n + entropy_read w; files := files w;
     stop_event := stop_event w; thread := thread w;
     data_points := data_points w; micro_benchmarks := micro_benchmarks w |}.

Definition put_file (path : string) (d : document) (w : world) : world :=
  {| log := log w; perf_reads := perf_reads w;
     wall_reads := wall_reads w; provider_calls := provider_calls w;
     entropy_read := entropy_read w; files := <[path := d]> (files w);
     stop_event := stop_event w; thread := thread w;
     data_points := data_points w; micro_benchmarks := micro_benchmarks w |}.

Definition set_stop_event (b : bool) (w : world) : world :=
  {| log := log w; perf_reads := perf_reads w;
     wall_reads := wall_reads w; provider_calls := provider_calls w;
     entropy_read := entropy_read w; files := files w;
     stop_event := b; thread := thread w;
     data_points := data_points w; micro_benchmarks := micro_benchmarks w |}.

Definition set_thread (t : thread_state) (w : world) : world :=
  {| log := log w; perf_reads := perf_reads w;
     wall_reads := wall_reads w; provider_calls := provider_calls w;
     entropy_read := entropy_read w; files := files w;
     stop_event := stop_event w; thread := t;
     data_points := data_points w; micro_benchmarks := micro_benchmarks w |}.

Definition append_data_point (s : ResourceSample) (w : world) : world :=
  {| log := log w; perf_reads := perf_reads w;
     wall_reads := wall_reads w; provider_calls := provider_calls w;
     entropy_read := entropy_read w; files := files w;
     stop_event := stop_event w; thread := thread w;
     data_points := data_points w ++ [s];
     micro_benchmarks := micro_benchmarks w |}.

Definition set_micro_benchmarks
    (m : gmap string (gmap string StatSummary)) (w : world) : world :=
  {| log := log w; perf_reads := perf_reads w;
     wall_reads := wall_reads w; provider_calls := provider_calls w;
     entropy_read := entropy_read w; files := files w;
     stop_event := stop_event w; thread := thread w;
     data_points := data_points w; micro_benchmarks := m |}.

(** ** The state and exception monad *)

Definition M (A : Type) : Type := world → outcome A * world.

Global Instance M_ret : MRet M := λ A a w, (Ok a, w).
Global Instance M_bind : MBind M := λ A B f c w,
  match c w with
  | (Ok a, w') => f a w'
  | (Raise e, w') => (Raise e, w')
  | (OutOfFuel, w') => (OutOfFuel, w')
  end.

Definition raise {A} (e : exn) : M A := λ w, (Raise e, w).
Definition lift {A} (o : outcome A) : M A := λ w, (o, w).
Definition modify (f : world → world) : M unit := λ w, (Ok (), f w).
Definition gets {A} (f : world → A) : M A := λ w, (Ok (f w), w).

(** [try: body  except <clauses>]: [clauses e] is the handler of the first
    clause that matches [e], if any. An exception raised by a handler is
    not handled by a sibling clause. *)
Definition try_except {A} (body : M A) (clauses : exn → option (M A)) : M A :=
  λ w, match body w with
       | (Raise e, w') =>
           match clauses e with
           | Some handler => handler w'
           | None => (Raise e, w')
           end
       | r => r
       end.

(** The clause [except Exception as e]. *)
Definition except_Exception {A} (handler : exn → M A) (e : exn)
  : option (M A) :=
  if is_Exception e then Some (handler e) else None.

(** [try: body  finally: cleanup]: the cleanup runs whenever the body
    returns or raises; what the cleanup raises replaces the body's result. *)
Definition try_finally {A} (body : M A) (cleanup : M unit) : M A :=
  λ w, match body w with
       | (OutOfFuel, w') => (OutOfFuel, w')
       | (r, w') =>
           match cleanup w' with
           | (Ok _, w'') => (r, w'')
           | (Raise e, w'') => (Raise e, w'')
           | (OutOfFuel, w'') => (OutOfFuel, w'')
           end
       end.

(** [for _ in range(n)] and [for x in xs], threading the loop's locals. *)
Fixpoint for_range {St} (n : nat) (body : St → M St) (s : St) : M St :=
  match n with
  | O => mret s
  | S n' => s' ← body s; for_range n' body s'
  end.

Fixpoint for_each {A St} (xs : list A) (body : A → St → M St) (s : St)
  : M St :=
  match xs with
  | [] => mret s
  | x :: xs' => s' ← body x s; for_each xs' body s'
  end.

Definition logger (lvl : level) (m : log_msg) : M unit :=
  modify (add_log lvl m).

(** ** Algorithm adapter ([algorithms.py]) *)

Definition PQCRYPTO_MAPPING : gmap string string :=
  list_to_map
    [ ("ML-KEM-512", "pqcrypto.kem.ml_kem_512");
      ("ML-KEM-768", "pqcrypto.kem.ml_kem_768");
      ("Kyber512", "pqcrypto.kem.kyber512");
      ("Kyber768", "pqcrypto.kem.kyber768");
      ("ML-DSA-44", "pqcrypto.sign.ml_dsa_44");
      ("ML-DSA-65", "pqcrypto.sign.ml_dsa_65");
      ("Dilithium2", "pqcrypto.sign.dilithium2");
      ("Dilithium3", "pqcrypto.sign.dilithium3");
      ("Falcon-512", "pqcrypto.sign.falcon_512");
      ("SPHINCS+-128s-simple", "pqcrypto.sign.sphincs_shake_128s_simple") ].

(** [needle in hay] on strings. *)
Fixpoint contains (needle hay : string) : bool :=
  String.prefix needle hay ||
  match hay with
  | EmptyString => false
  | String _ hay' => contains needle hay'
  end.

(** [str.lower] on ASCII letters. *)
Definition lower_ascii (c : ascii) : ascii :=
  let n := nat_of_ascii c in
  if ((65 <=? n) && (n <=? 90))%nat then ascii_of_nat (n + 32) else c.

Fixpoint lower (s : string) : string :=
  match s with
  | EmptyString => EmptyString
  | String c s' => String (lower_ascii c) (lower s')
  end.

Inductive alg_class : Type := KEM | Signature.

(** A [CryptoAlgorithm] instance: its class and its three attributes. *)
Record CryptoAlgorithm : Type := {
  class : alg_class;
  name : string;
  implementation : string;
  module : option pymodule
}.

(** [self.module.<attr>]: fails on a [None] module and on a missing
    attribute alike. *)
Definition getattr {A} (m : option pymodule) (attr : pymodule → option A)
  : M A :=
  match m ≫= attr with
  | Some f => mret f
  | None => raise AttributeError
  end.

(** Calling into the provider. *)
Definition call {A} (f : nat → outcome A) : M A :=
  λ w, (f (provider_calls w), count_provider_call w).

(** [if not isinstance(x, bytes): x = bytes(x)] *)
Definition ensure_bytes (x : pyval) : M pyval :=
  if is_bytes x then mret x else lift (py_bytes x).

Section Adapter.
Variable E : env.

Definition _load_module (name implementation : string)
  : M (option pymodule) :=
  if bool_decide (implementation = "pqcrypto") then
    let module_name := default name (PQCRYPTO_MAPPING !! name) in
    try_except (m ← lift (import_module E module_name); mret (Some m))
      (λ e, if bool_decide (e = ImportError)
            then Some (logger ERROR (Failed_to_load module_name name e);;
                       raise e)
            else None)
  else if bool_decide (implementation = "dilithium-py") then
    if contains "ML-DSA" name || contains "Dilithium" name
    then raise NotImplementedError
    else mret None
  else raise ValueError.

(** [CryptoAlgorithm.__init__], for either subclass. *)
Definition new_algorithm (c : alg_class) (name implementation : string)
  : M CryptoAlgorithm :=
  m ← _load_module name implementation;
  mret {| class := c; name := name; implementation := implementation;
          module := m |}.

Definition get_algorithm (alg_type name implementation : string)
  : M CryptoAlgorithm :=
  if bool_decide (lower alg_type = "kem") then
    new_algorithm KEM name implementation
  else if bool_decide (lower alg_type = "sign") then
    new_algorithm Signature name implementation
  else raise ValueError.
End Adapter.

Definition KEM_keygen (self : CryptoAlgorithm) : M (pyval * pyval) :=
  f ← getattr (module self) mod_generate_keypair;
  '(pk, sk) ← call f;
  pk_len ← lift (py_len pk);
  sk_len ← lift (py_len sk);
  logger INFO (KeyGen_debug (name self) pk_len sk_len);;
  pk' ← lift (py_bytes pk);
  sk' ← lift (py_bytes sk);
  mret (pk', sk').

Definition KEM_encaps (self : CryptoAlgorithm) (public_key : pyval)
  : M (pyval * pyval) :=
  public_key ← ensure_bytes public_key;
  f ← getattr (module self) mod_encrypt;
  '(ct, ss) ← call (f public_key);
  ct' ← lift (py_bytes ct);
  ss' ← lift (py_bytes ss);
  mret (ct', ss').

Definition KEM_decaps (self : CryptoAlgorithm) (ciphertext secret_key : pyval)
  : M pyval :=
  ciphertext ← ensure_bytes ciphertext;
  secret_key ← ensure_bytes secret_key;
  f ← getattr (module self) mod_decrypt;
  r ← call (f secret_key ciphertext);
  lift (py_bytes r).

Definition Signature_keygen (self : CryptoAlgorithm) : M (pyval * pyval) :=
  f ← getattr (module self) mod_generate_keypair;
  '(pk, sk) ← call f;
  pk' ← lift (py_bytes pk);
  sk' ← lift (py_bytes sk);
  mret (pk', sk').

Definition Signature_sign (self : CryptoAlgorithm) (message secret_key : pyval)
  : M pyval :=
  message ← ensure_bytes message;
  secret_key ← ensure_bytes secret_key;
  f ← getattr (module self) mod_sign;
  r ← call (f secret_key message);
  lift (py_bytes r).

(** [hasattr(self.module, attr)] *)
Definition hasattr {A} (m : option pymodule) (attr : pymodule → option A)
  : bool :=
  bool_decide (is_Some (m ≫= attr)).

Definition Signature_verify (self : CryptoAlgorithm)
    (public_key message signature : pyval) : M pyval :=
  public_key ← ensure_bytes public_key;
  message ← ensure_bytes message;
  signature ← ensure_bytes signature;
  r ← try_except
        (if hasattr (module self) mod_verify then
           f ← getattr (module self) mod_verify;
           v ← call (f public_key message signature);
           mret (Some v)
         else if hasattr (module self) mod_open then
           f ← getattr (module self) mod_open;
           res ← call (f public_key signature);
           mret (Some (PyBool (py_eq res message)))
         else mret None)
        (except_Exception (λ _, mret (Some (PyBool false))));
  match r with
  | Some v => mret v
  | None => mret (PyBool false)
  end.

(** Method lookup on an instance: [alg.keygen], [alg.encaps], ... An
    instance of the other class has no such method. *)
Definition keygen (alg : CryptoAlgorithm) : M (pyval * pyval) :=
  match class alg with
  | KEM => KEM_keygen alg
  | Signature => Signature_keygen alg
  end.

Definition encaps (alg : CryptoAlgorithm) (pk : pyval) : M (pyval * pyval) :=
  match class alg with
  | KEM => KEM_encaps alg pk
  | Signature => raise AttributeError
  end.

Definition decaps (alg : CryptoAlgorithm) (ct sk : pyval) : M pyval :=
  match class alg with
  | KEM => KEM_decaps alg ct sk
  | Signature => raise AttributeError
  end.

Definition sign (alg : CryptoAlgorithm) (message sk : pyval) : M pyval :=
  match class alg with
  | Signature => Signature_sign alg message sk
  | KEM => raise AttributeError
  end.

Definition verify (alg : CryptoAlgorithm) (pk message sig : pyval)
  : M pyval :=
  match class alg with
  | Signature => Signature_verify alg pk message sig
  | KEM => raise AttributeError
  end.

(** ** Resource monitor ([monitor.py]) *)

Record SystemMonitor : Type := {
  interval : Q;
  output_file : option string
}.

(** One clause [except psutil.NoSuchProcess]. *)
Definition except_NoSuchProcess {A} (handler : M A) (e : exn)
  : option (M A) :=
  if bool_decide (e = NoSuchProcess) then Some handler else None.

(** The sampling loop. [ticks] holds the readings of the passes made while
    the stop flag is clear; the loop condition fails when they are used
    up. The memory read yields [None] for [break]. *)
Fixpoint _monitor_loop (ticks : list tick) : M unit :=
  match ticks with
  | [] => mret ()
  | t :: ticks' =>
      let timestamp := tick_time t in
      cpu_percent ← lift (tick_process_cpu_percent t);
      mem ← try_except
               (rss ← lift (tick_memory_info t); mret (Some rss))
               (except_NoSuchProcess (mret None));
      match mem with
      | None => mret ()
      | Some memory_rss =>
          sys ← lift (tick_system_cpu_percent t);
          freq ← try_except (lift (tick_cpu_freq t))
                   (except_Exception (λ _, mret None));
          modify (append_data_point
                    {| timestamp := timestamp; cpu_percent := cpu_percent;
                       memory_rss := memory_rss; system_cpu_percent := sys;
                       cpu_freq_current := freq |});;
          _monitor_loop ticks'
      end
  end.

Section Monitor.
Variable E : env.

(** [open(path, 'w')] followed by [json.dump]. *)
Definition write_file (path : string) (d : document) : M unit :=
  if writable E path then modify (put_file path d) else raise OSError.

Definition start (self : SystemMonitor) : M unit :=
  modify (set_stop_event false);;
  modify (set_thread Started);;
  logger INFO (Monitor_started (interval self)).

Definition _save_data (self : SystemMonitor) : M unit :=
  let path := default "" (output_file self) in
  try_except
    (d ← gets data_points;
     write_file path (MonitorDoc d);;
     logger INFO (Monitor_data_saved path))
    (except_Exception
       (λ e, logger ERROR (Failed_to_save_monitor_data e))).

(** [self.thread.join()]: the sampling thread runs its loop to the end;
    an exception that leaves the loop ends the thread, not the caller. *)
Definition run_thread (target : M unit) : M unit :=
  λ w, (Ok (), set_thread Joined (target w).2).

Definition join : M unit :=
  th ← gets thread;
  match th with
  | Started => run_thread (_monitor_loop (sampler_ticks E))
  | _ => mret ()
  end.

Definition stop (self : SystemMonitor) : M unit :=
  modify (set_stop_event true);;
  th ← gets thread;
  (match th with NoThread => mret () | _ => join end);;
  logger INFO Monitor_stopped;;
  match output_file self with
  | Some (String _ _) => _save_data self
  | _ => mret ()
  end.
End Monitor.

(** ** Benchmark engine ([runner.py]) *)

Record BenchmarkRunner : Type := {
  self_config : Config;
  self_output_dir : string;
  monitor : SystemMonitor
}.

(** [os.path.join(dir, file)] for a relative [file]. *)
Definition path_join (dir file : string) : string :=
  if bool_decide (dir = "") || String.prefix "/" (String.rev dir)
  then dir +:+ file
  else dir +:+ "/" +:+ file.

(** [int(x)] on a float: truncation. *)
Definition py_int (x : Q) : Z := Z.quot (Qnum x) (Z.pos (Qden x)).

Section Runner.
Context `{FloatSqrt}.
Variable E : env.

Definition perf_counter : M Z :=
  λ w, (Ok (perf_counter_ns E (perf_reads w)), count_perf_read w).

Definition time : M Q :=
  λ w, (Ok (time_time E (wall_reads w)), count_wall_read w).

(** [datetime.now().isoformat()] *)
Definition now_isoformat : M string :=
  λ w, (Ok (datetime_now E (wall_reads w)), count_wall_read w).

Definition urandom (size : Z) : M pyval :=
  if size <? 0 then raise ValueError
  else λ w,
    let n := Z.to_nat size in
    (Ok (PyBytes (map (λ i, os_urandom E (entropy_read w + i)%nat)
                      (seq 0 n))),
     count_entropy n w).

(** [BenchmarkRunner.__init__] on the parsed configuration. *)
Definition new_runner (cfg : Config) : M BenchmarkRunner :=
  let dir := default "data" (output_dir cfg) in
  t ← time;
  mret {| self_config := cfg; self_output_dir := dir;
          monitor :=
            {| interval := sampling_interval_seconds cfg;
               output_file :=
                 Some (path_join dir
                         ("system_monitor_" +:+ pretty (py_int t)
                          +:+ ".json")) |} |}.

Definition _measure_time {A} (func : M A) : M Z :=
  start ← perf_counter;
  func;;
  end_ ← perf_counter;
  mret (end_ - start).

Definition run_warmup (alg : CryptoAlgorithm) (iterations : Z) : M unit :=
  logger INFO (Warming_up (name alg) iterations);;
  for_range (Z.to_nat iterations)
    (λ _, try_except (keygen alg;; mret ())
            (except_Exception (λ _, mret ())))
    ().

(** The three timing loops of [run_micro_benchmarks]; each returns the
    latency lists it has filled. *)
Definition keygen_trials (alg : CryptoAlgorithm) (iterations : nat)
  : M (list Z) :=
  for_range iterations
    (λ latencies,
       t ← _measure_time (keygen alg);
       mret (latencies ++ [t]))
    [].

Definition kem_trials (alg : CryptoAlgorithm) (pk sk : pyval)
    (iterations : nat) : M (list Z * list Z) :=
  for_range iterations
    (λ '(enc_latencies, dec_latencies),
       t0 ← perf_counter;
       '(ct, ss) ← encaps alg pk;
       t1 ← perf_counter;
       let enc_latencies := enc_latencies ++ [t1 - t0] in
       t0 ← perf_counter;
       decaps alg ct sk;;
       t1 ← perf_counter;
       mret (enc_latencies, dec_latencies ++ [t1 - t0]))
    ([], []).

Definition sign_trials (alg : CryptoAlgorithm) (pk sk message : pyval)
    (iterations : nat) : M (list Z * list Z) :=
  for_range iterations
    (λ '(sign_latencies, verify_latencies),
       t0 ← perf_counter;
       sig ← sign alg message sk;
       t1 ← perf_counter;
       let sign_latencies := sign_latencies ++ [t1 - t0] in
       t0 ← perf_counter;
       verify alg pk message sig;;
       t1 ← perf_counter;
       mret (sign_latencies, verify_latencies ++ [t1 - t0]))
    ([], []).

(** [run_micro_benchmarks], with the aggregation method it calls on
    every list of samples as a parameter. *)
Definition run_micro_benchmarks_with {A} (aggregate : list Z → outcome A)
    (alg : CryptoAlgorithm) (alg_type : string) (params : AlgorithmSpec)
  : M (gmap string A) :=
  let iterations := 1000%nat in
  logger INFO (Running_micro_benchmarks (name alg));;
  latencies ← keygen_trials alg iterations;
  st ← lift (aggregate latencies);
  let results : gmap string A := <["keygen" := st]> ∅ in
  '(pk, sk) ← keygen alg;
  if bool_decide (alg_type = "kem") then
    for_each (default [32] (payload_sizes params))
      (λ size results,
         '(enc_latencies, dec_latencies) ← kem_trials alg pk sk iterations;
         e ← lift (aggregate enc_latencies);
         let results := <["encaps_size_" +:+ pretty size := e]> results in
         d ← lift (aggregate dec_latencies);
         mret (<["decaps_size_" +:+ pretty size := d]> results))
      results
  else if bool_decide (alg_type = "sign") then
    for_each (default [32] (message_sizes params))
      (λ size results,
         message ← urandom size;
         '(sign_latencies, verify_latencies) ←
           sign_trials alg pk sk message iterations;
         s ← lift (aggregate sign_latencies);
         let results := <["sign_size_" +:+ pretty size := s]> results in
         v ← lift (aggregate verify_latencies);
         mret (<["verify_size_" +:+ pretty size := v]> results))
      results
  else mret results.

Definition run_micro_benchmarks
  : CryptoAlgorithm → string → AlgorithmSpec → M (gmap string StatSummary) :=
  run_micro_benchmarks_with _calculate_stats.

(** One pass over one handle in the stability loop. *)
Definition full_cycle (alg_obj : CryptoAlgorithm) : M unit :=
  '(pk, sk) ← keygen alg_obj;
  match class alg_obj with
  | KEM =>
      '(ct, ss) ← encaps alg_obj pk;
      decaps alg_obj ct sk;;
      mret ()
  | Signature =>
      msg ← urandom 32;
      sig ← sign alg_obj msg sk;
      verify alg_obj pk msg sig;;
      mret ()
  end.

(** [while time.time() < end_time: ...]; the loop is bounded by the wall
    clock only, so the model gives it fuel. *)
Fixpoint stability_loop (fuel : nat) (algs : list CryptoAlgorithm)
    (start_time end_time duration : Q) (iteration : Z) : M unit :=
  match fuel with
  | O => λ w, (OutOfFuel, w)
  | S fuel' =>
      now ← time;
      if Qltb now end_time then
        for_each algs
          (λ alg_obj _,
             try_except (full_cycle alg_obj)
               (except_Exception
                  (λ e, logger ERROR
                          (Error_in_stability_test (name alg_obj) e))))
          ();;
        let iteration := iteration + 1 in
        (if iteration mod 100 =? 0 then
           t ← time;
           logger DEBUG
             (Stability_test_progress (py_int (t - start_time)) duration)
         else mret ());;
        stability_loop fuel' algs start_time end_time duration iteration
      else mret ()
  end.

Definition run_long_stability_test (fuel : nat)
    (algs : list CryptoAlgorithm) (duration : Q) : M unit :=
  logger INFO (Starting_stability_test duration);;
  start_time ← time;
  let end_time := (start_time + duration)%Q in
  stability_loop fuel algs start_time end_time duration 0;;
  logger INFO Stability_test_completed.

(** [full_results['micro_benchmarks'][key] = res] *)
Definition store_result (key : string) (res : gmap string StatSummary)
  : M unit :=
  modify (λ w, set_micro_benchmarks (<[key := res]> (micro_benchmarks w)) w).

(** The body of the two loops of the micro-benchmark phase. *)
Definition benchmark_item (alg_type : string) (warmup : Z)
    (item : AlgorithmSpec) : M unit :=
  alg ← get_algorithm E alg_type (item_name item)
          (item_implementation item);
  run_warmup alg warmup;;
  res ← run_micro_benchmarks alg alg_type item;
  store_result (item_name item) res.

Definition benchmark_all (alg_type : string)
    (items : option (list AlgorithmSpec)) (warmup : Z) : M unit :=
  match items with
  | Some items =>
      for_each items (λ item _, benchmark_item alg_type warmup item) ()
  | None => mret ()
  end.

(** [all_algs.append(get_algorithm(...))] over one configured list. *)
Definition collect_algs (alg_type : string)
    (items : option (list AlgorithmSpec)) (all_algs : list CryptoAlgorithm)
  : M (list CryptoAlgorithm) :=
  match items with
  | Some items =>
      for_each items
        (λ item all_algs,
           alg ← get_algorithm E alg_type (item_name item)
                   (item_implementation item);
           mret (all_algs ++ [alg]))
        all_algs
  | None => mret all_algs
  end.

(** The body of the [try] statement of [run]. *)
Definition phases (fuel : nat) (cfg : Config) : M unit :=
  benchmark_all "kem" (algorithms_kem cfg) (warmup_iterations cfg);;
  benchmark_all "sign" (algorithms_sign cfg) (warmup_iterations cfg);;
  all_algs ← collect_algs "kem" (algorithms_kem cfg) [];
  all_algs ← collect_algs "sign" (algorithms_sign cfg) all_algs;
  run_long_stability_test fuel all_algs (long_run_duration_seconds cfg).

(** The two [except] clauses of [run]. *)
Definition run_handlers (e : exn) : option (M unit) :=
  if bool_decide (e = KeyboardInterrupt)
  then Some (logger INFO Benchmark_interrupted)
  else except_Exception (λ e, logger ERROR (Benchmark_failed e)) e.

(** The [finally] block of [run]. *)
Definition finalize (self : BenchmarkRunner) (metadata : Metadata)
  : M unit :=
  stop E (monitor self);;
  end_time ← now_isoformat;
  let metadata :=
    {| start_time := start_time metadata; platform := platform metadata;
       processor := processor metadata; config := config metadata;
       end_time := Some end_time |} in
  t ← time;
  let res_file :=
    path_join (self_output_dir self)
      ("benchmark_results_" +:+ pretty (py_int t) +:+ ".json") in
  micro ← gets micro_benchmarks;
  write_file E res_file (ResultDoc metadata micro);;
  logger INFO (Results_saved res_file).

(** [run] up to the [try] statement: the pre-flight check, the monitor
    start, and the fresh [full_results] with its metadata. *)
Definition preflight_and_start (self : BenchmarkRunner) : M Metadata :=
  let initial_cpu := psutil_cpu_percent E in
  (if Qltb 20 initial_cpu
   then logger WARNING (High_system_CPU initial_cpu)
   else logger INFO (System_CPU_normal initial_cpu));;
  start (monitor self);;
  start_time ← now_isoformat;
  modify (set_micro_benchmarks ∅);;
  mret {| start_time := start_time; platform := platform_platform E;
          processor := platform_processor E; config := self_config self;
          end_time := None |}.

Definition run (self : BenchmarkRunner) (fuel : nat) : M unit :=
  metadata ← preflight_and_start self;
  try_finally
    (try_except (phases fuel (self_config self)) run_handlers)
    (finalize self metadata).
End Runner.

(** The state of a fresh process. *)
Definition initial_world : world :=
  {| log := []; perf_reads := 0; wall_reads := 0; provider_calls := 0;
     entropy_read := 0; files := ∅; stop_event := false; thread := NoThread;
     data_points := []; micro_benchmarks := ∅ |}.

(** ** Specification-side definitions *)

(** The sample sequence 1, 2, ..., 100 microseconds, in nanoseconds. *)
Definition one_to_hundred_us : list Z :=
  map (λ i, 1000 * Z.of_nat i) (seq 1 100).

(** A timing sample: what the difference of two readings of the 64-bit
    nanosecond clock can be. *)
Definition timing_sample (x : Z) : Prop := Z.abs x < 2 ^ 64.

(** The microseconds of a nanosecond count, as an exact fraction. *)
Definition ns_to_us (l : Z) : Q := Qred (inject_Z l / 1000).

(** A result whose failures, if any, are instances of [Exception]. *)
Definition fails_with_Exceptions {A} (o : outcome A) : Prop :=
  ∀ e, o = Raise e → is_Exception e = true.

(** The provider's verification entry points fail with [Exception]s only
    (cancellation is not a failure of the provider). *)
Definition provider_failures_are_Exceptions (m : option pymodule) : Prop :=
  (∀ f a b c n, m ≫= mod_verify = Some f → fails_with_Exceptions (f a b c n))
  ∧ (∀ g a b n, m ≫= mod_open = Some g → fails_with_Exceptions (g a b n)).



Definition record_samples (l : list ResourceSample) (w : world) : world :=
  foldl (λ w s, append_data_point s w) w l.

(** The path [run] writes the result document to when its [finally] block
    starts in state [w]. *)
Definition results_path (E : env) (self : BenchmarkRunner) (w : world)
  : string :=
  path_join (self_output_dir self)
    ("benchmark_results_"
     +:+ pretty (py_int (time_time E (S (wall_reads w)))) +:+ ".json").

(** The metadata with the end time stamped in state [w]. *)
Definition stamped (E : env) (metadata : Metadata) (w : world) : Metadata :=
  {| start_time := start_time metadata; platform := platform metadata;
     processor := processor metadata; config := config metadata;
     end_time := Some (datetime_now E (wall_reads w)) |}.

(** The configured algorithms in the order [run] benchmarks them, each
    with the type tag it is constructed with. *)
Definition configured (cfg : Config) : list (string * AlgorithmSpec) :=
  ((λ item, ("kem", item)) <$> default [] (algorithms_kem cfg))
  ++ ((λ item, ("sign", item)) <$> default [] (algorithms_sign cfg)).

(** The body of the benchmark loops of [run] on an entry of [configured]. *)
Definition benchmark_configured `{FloatSqrt} (E : env) (warmup : Z)
    (entry : string * AlgorithmSpec) (_ : unit) : M unit :=
  benchmark_item E entry.1 warmup entry.2.

(** A computation that never touches [full_results]. *)
Definition keeps_micro {A} (c : M A) : Prop :=
  ∀ w, micro_benchmarks (c w).2 = micro_benchmarks w.

(** A KEM provider that has the three entry points, each of which returns
    byte strings on every call. *)
Definition kem_provider_works (m : option pymodule) : Prop :=
  ∃ kg enc dec,
    m ≫= mod_generate_keypair = Some kg
    ∧ m ≫= mod_encrypt = Some enc
    ∧ m ≫= mod_decrypt = Some dec
    ∧ (∀ n, ∃ pk sk, kg n = Ok (PyBytes pk, PyBytes sk))
    ∧ (∀ x n, ∃ ct ss, enc x n = Ok (PyBytes ct, PyBytes ss))
    ∧ (∀ x y n, ∃ ss, dec x y n = Ok (PyBytes ss)).

(** The provider recovers with [decrypt(sk, ct)] the secret that
    [encrypt(pk)] produced, for the key pair [(pk, sk)]. *)
Definition kem_correct_for (enc : pyval → nat → outcome (pyval * pyval))
    (dec : pyval → pyval → nat → outcome pyval) (pk sk : bytes) : Prop :=
  ∀ n ct0 ss0 ct ss n',
    enc (PyBytes pk) n = Ok (ct0, ss0) →
    py_bytes ct0 = Ok (PyBytes ct) → py_bytes ss0 = Ok (PyBytes ss) →
    ∃ r, dec (PyBytes sk) (PyBytes ct) n' = Ok r
         ∧ py_bytes r = Ok (PyBytes ss).

(** A detached-signature provider: [verify(pk, msg, sig)] accepts, with
    [True], what [sign(sk, msg)] produced. *)
Definition verify_accepts
    (sg : pyval → pyval → nat → outcome pyval)
    (vf : pyval → pyval → pyval → nat → outcome pyval)
    (pk sk : bytes) : Prop :=
  ∀ msg n sig0 sig n',
    sg (PyBytes sk) (PyBytes msg) n = Ok sig0 →
    py_bytes sig0 = Ok (PyBytes sig) →
    vf (PyBytes pk) (PyBytes msg) (PyBytes sig) n' = Ok (PyBool true).

(** An attached-signature provider: [open(pk, signed)] returns the message
    that [sign(sk, msg)] signed. *)
Definition open_recovers
    (sg : pyval → pyval → nat → outcome pyval)
    (op : pyval → pyval → nat → outcome pyval)
    (pk sk : bytes) : Prop :=
  ∀ msg n sig0 sig n',
    sg (PyBytes sk) (PyBytes msg) n = Ok sig0 →
    py_bytes sig0 = Ok (PyBytes sig) →
    op (PyBytes pk) (PyBytes sig) n' = Ok (PyBytes msg).

(** A computation out of which no [Exception] propagates. *)
Definition contains_Exceptions {A} (c : M A) : Prop :=
  ∀ w e, (c w).1 = Raise e → is_Exception e = false.



(** What [run] returns for a result of its [try] body: a cancellation and
    an [Exception] are handled, any other exception is re-raised after
    the [finally] block. *)
Definition after_handlers (o : outcome unit) : outcome unit :=
  match o with
  | Raise e =>
      if bool_decide (e = KeyboardInterrupt) || is_Exception e
      then Ok () else Raise e
  | _ => o
  end.

(** The keys that the KEM branch of [run_micro_benchmarks] writes for a
    list of payload sizes. *)
Definition kem_keys (sizes : list Z) : gset string :=
  {["keygen"]}
  ∪ list_to_set (sizes ≫= λ size, ["encaps_size_" +:+ pretty size;
                                    "decaps_size_" +:+ pretty size]).

(** A signature provider whose [generate_keypair] and [sign] return byte
    strings on every call, and whose [verify] and [open], where present,
    return or fail with an [Exception]. *)
Definition sign_provider_works (m : option pymodule) : Prop :=
  ∃ kg sg,
    m ≫= mod_generate_keypair = Some kg
    ∧ m ≫= mod_sign = Some sg
    ∧ (∀ n, ∃ pk sk, kg n = Ok (PyBytes pk, PyBytes sk))
    ∧ (∀ x y n, ∃ sig, sg x y n = Ok (PyBytes sig))
    ∧ provider_failures_are_Exceptions m
    ∧ (∀ vf a b c n, m ≫= mod_verify = Some vf → vf a b c n ≠ OutOfFuel)
    ∧ (∀ op a b n, m ≫= mod_open = Some op → op a b n ≠ OutOfFuel).

(** The keys that the signature branch of [run_micro_benchmarks] writes
    for a list of message sizes. *)
Definition sign_keys (sizes : list Z) : gset string :=
  {["keygen"]}
  ∪ list_to_set (sizes ≫= λ size, ["sign_size_" +:+ pretty size;
                                    "verify_size_" +:+ pretty size]).

(** The body of the message-size loop of [run_micro_benchmarks]. *)
Definition sign_sweep_body `{FloatSqrt} (E : env) (alg : CryptoAlgorithm)
    (pk sk : bytes) (size : Z) (results : gmap string StatSummary)
  : M (gmap string StatSummary) :=
  message ← urandom E size;
  '(sign_latencies, verify_latencies) ←
    sign_trials E alg (PyBytes pk) (PyBytes sk) message 1000;
  s ← lift (_calculate_stats sign_latencies);
  let results := <["sign_size_" +:+ pretty size := s]> results in
  v ← lift (_calculate_stats verify_latencies);
  mret (<["verify_size_" +:+ pretty size := v]> results).

(** [time.perf_counter_ns] never goes back. *)
Definition monotone_clock (E : env) : Prop :=
  ∀ n, perf_counter_ns E n <= perf_counter_ns E (S n).

(** A computation that does not read the performance counter. *)
Definition keeps_perf_reads {A} (c : M A) : Prop :=
  ∀ w, perf_reads (c w).2 = perf_reads w.

(** A computation that does not read the wall clock. *)
Definition keeps_wall_reads {A} (c : M A) : Prop :=
  ∀ w, wall_reads (c w).2 = wall_reads w.

(** From its [K]-th read on, the wall clock shows [deadline] or later. *)
Definition clock_reaches (E : env) (K : nat) (deadline : Q) : Prop :=
  ∀ k, (K <= k)%nat → (deadline <= time_time E k)%Q.

(** One pass of the stability loop over the pooled handles. *)
Definition stability_pass (E : env) (algs : list CryptoAlgorithm) : M unit :=
  for_each algs
    (λ alg_obj _,
       try_except (full_cycle E alg_obj)
         (except_Exception
            (λ e, logger ERROR (Error_in_stability_test (name alg_obj) e))))
    ().

(** ** Concrete providers and hosts for the examples *)

Definition blob (n : nat) : pyval := PyBytes (replicate n Byte.x01).

(** A KEM provider whose calls all succeed. *)
Definition kem_module : pymodule :=
  {| mod_generate_keypair := Some (λ _, Ok (blob 4, blob 8));
     mod_encrypt := Some (λ _ _, Ok (blob 3, blob 2));
     mod_decrypt := Some (λ _ _ _, Ok (blob 2));
     mod_sign := None; mod_verify := None; mod_open := None |}.

(** A signature provider that rejects every signature by raising. *)
Definition rejecting_module : pymodule :=
  {| mod_generate_keypair := None; mod_encrypt := None; mod_decrypt := None;
     mod_sign := None;
     mod_verify := Some (λ _ _ _ _, Raise ValueError);
     mod_open := None |}.

(** A KEM provider whose fourth call is cut short by Ctrl-C. *)
Definition interrupted_module : pymodule :=
  {| mod_generate_keypair :=
       Some (λ n, if (n =? 3)%nat then Raise KeyboardInterrupt
                  else Ok (blob 4, blob 8));
     mod_encrypt := Some (λ _ _, Ok (blob 3, blob 2));
     mod_decrypt := Some (λ _ _ _, Ok (blob 2));
     mod_sign := None; mod_verify := None; mod_open := None |}.

Definition handle (c : alg_class) (n : string) (m : option pymodule)
  : CryptoAlgorithm :=
  {| class := c; name := n; implementation := "pqcrypto"; module := m |}.

(** A clock that advances by a microsecond per reading and stays at the
    last 64-bit value once it has reached it. *)
Definition lab_clock (n : nat) : Z := Z.min (1000 * Z.of_nat n) (2 ^ 63 - 1).

Lemma lab_clock_int64 (n : nat) : int64 (lab_clock n).
Proof.
  unfold int64, lab_clock.
  change (2 ^ 63) with 9223372036854775808. lia.
Qed.

(** A host on which three provider modules can be imported, one of them
    under a name that [PQCRYPTO_MAPPING] does not list. *)
Definition lab_env : env :=
  {| perf_counter_ns := lab_clock;
     perf_counter_ns_int64 := lab_clock_int64;
     time_time := λ n, inject_Z (Z.of_nat n);
     datetime_now := λ n, "2026-01-01T00:00:0" +:+ pretty n;
     platform_platform := "Linux";
     platform_processor := "x86_64";
     psutil_cpu_percent := 5;
     import_module := λ s,
       if bool_decide (s = "pqcrypto.kem.ml_kem_512") then Ok kem_module
       else if bool_decide (s = "pqcrypto.kem.mceliece348864")
       then Ok kem_module
       else if bool_decide (s = "pqcrypto.kem.ml_kem_768")
       then Ok interrupted_module
       else Raise ImportError;
     os_urandom := λ _, Byte.x00;
     sampler_ticks := [];
     writable := λ _, true |}.

(** A signature provider without [verify] and without [open]. *)
Definition bare_module : pymodule :=
  {| mod_generate_keypair := Some (λ _, Ok (blob 4, blob 8));
     mod_encrypt := None; mod_decrypt := None;
     mod_sign := Some (λ _ _ _, Ok (blob 6));
     mod_verify := None; mod_open := None |}.

Definition kem_item (n : string) : AlgorithmSpec :=
  {| item_name := n; item_implementation := "pqcrypto";
     payload_sizes := Some [32]; message_sizes := None;
     other_keys := [("iterations", 10)] |}.

Definition lab_config (kems : list AlgorithmSpec) : Config :=
  {| output_dir := None; warmup_iterations := 5;
     long_run_duration_seconds := 2; sampling_interval_seconds := 1;
     execution_other_keys := [("iterations", 10)];
     algorithms_kem := Some kems; algorithms_sign := None |}.

Definition lab_runner (kems : list AlgorithmSpec) : BenchmarkRunner :=
  {| self_config := lab_config kems; self_output_dir := "data";
     monitor := {| interval := 1;
                   output_file := Some "data/system_monitor_0.json" |} |}.



Definition two_kems : list AlgorithmSpec :=
  [kem_item "NoSuchAlgorithm"; kem_item "ML-KEM-512"].

Definition interrupted_kems : list AlgorithmSpec := [kem_item "ML-KEM-768"].

(** ** Further providers and hosts for the examples *)

(** A detached-signature provider that accepts every signature. *)
Definition sign_module : pymodule :=
  {| mod_generate_keypair := Some (λ _, Ok (blob 4, blob 8));
     mod_encrypt := None; mod_decrypt := None;
     mod_sign := Some (λ _ _ _, Ok (blob 6));
     mod_verify := Some (λ _ _ _ _, Ok (PyBool true));
     mod_open := None |}.

(** An attached-signature provider: the signed message is the message. *)
Definition open_module : pymodule :=
  {| mod_generate_keypair := Some (λ _, Ok (blob 4, blob 8));
     mod_encrypt := None; mod_decrypt := None;
     mod_sign := Some (λ _ msg _, Ok msg);
     mod_verify := None;
     mod_open := Some (λ _ signed _, Ok signed) |}.

(** [lab_env] with a sink that refuses every write. *)
Definition sealed_env : env :=
  {| perf_counter_ns := perf_counter_ns lab_env;
     perf_counter_ns_int64 := perf_counter_ns_int64 lab_env;
     time_time := time_time lab_env;
     datetime_now := datetime_now lab_env;
     platform_platform := platform_platform lab_env;
     platform_processor := platform_processor lab_env;
     psutil_cpu_percent := psutil_cpu_percent lab_env;
     import_module := import_module lab_env;
     os_urandom := os_urandom lab_env;
     sampler_ticks := sampler_ticks lab_env;
     writable := λ _, false |}.

Definition sign_item (n : string) (sizes : list Z) : AlgorithmSpec :=
  {| item_name := n; item_implementation := "pqcrypto";
     payload_sizes := None; message_sizes := Some sizes;
     other_keys := [] |}.

Definition one_kem : list AlgorithmSpec := [kem_item "ML-KEM-512"].

(** * Properties *)

(** ** Stats aggregator *)

Section StatsFacts.
Local Open Scope Q_scope.

Lemma Qltb_true (x y : Q) : Qltb x y = true ↔ x < y.
Proof.
  unfold Qltb. rewrite negb_true_iff. split.
  - intros Hb. apply Qnot_le_lt. intros Hle.
    apply Qle_bool_iff in Hle. congruence.
  - intros Hlt. destruct (Qle_bool y x) eqn:Hb; [|done].
    apply Qle_bool_iff in Hb. apply Qlt_not_le in Hlt. done.
Qed.

Lemma Qltb_false (x y : Q) : Qltb x y = false ↔ y <= x.
Proof.
  unfold Qltb. rewrite negb_false_iff. apply Qle_bool_iff.
Qed.

Lemma lenQ_cons (x : Q) (l : list Q) : lenQ (x :: l) == 1 + lenQ l.
Proof.
  unfold lenQ. simpl length. rewrite Nat2Z.inj_succ, <- Z.add_1_l.
  rewrite inject_Z_plus. reflexivity.
Qed.

Lemma lenQ_nonneg (l : list Q) : 0 <= lenQ l.
Proof.
  unfold lenQ. change 0 with (inject_Z 0). rewrite <- Zle_Qle. lia.
Qed.

Lemma sumQ_cons (x : Q) (l : list Q) : sumQ (x :: l) == x + sumQ l.
Proof. unfold sumQ. simpl. apply Qred_correct. Qed.

(** A sum lies between [n] times a lower and an upper bound. *)
Lemma sumQ_bounds (lo hi : Q) (l : list Q) :
  Forall (λ x, lo <= x ∧ x <= hi) l →
  lo * lenQ l <= sumQ l ∧ sumQ l <= hi * lenQ l.
Proof.
  induction 1 as [|x l [Hlo Hhi] _ [IHlo IHhi]].
  - unfold lenQ, sumQ. simpl. unfold inject_Z. split; ring_simplify; apply Qle_refl.
  - rewrite sumQ_cons, lenQ_cons. split.
    + assert (Hd : lo * (1 + lenQ l) == lo + lo * lenQ l) by ring.
      rewrite Hd. apply Qplus_le_compat; assumption.
    + assert (Hd : hi * (1 + lenQ l) == hi + hi * lenQ l) by ring.
      rewrite Hd. apply Qplus_le_compat; assumption.
Qed.

Lemma mean_bounds (lo hi : Q) (l : list Q) :
  l ≠ [] → Forall (λ x, lo <= x ∧ x <= hi) l →
  lo <= sumQ l / lenQ l ∧ sumQ l / lenQ l <= hi.
Proof.
  intros Hne Hall. destruct (sumQ_bounds lo hi l Hall) as [Hlo Hhi].
  assert (Hpos : 0 < lenQ l).
  { destruct l as [|x l]; [done|]. rewrite lenQ_cons.
    pose proof (lenQ_nonneg l). lra. }
  split.
  - apply Qle_shift_div_l; assumption.
  - apply Qle_shift_div_r; assumption.
Qed.

Lemma insert_sorted_In (x y : Q) (l : list Q) :
  In y (insert_sorted x l) ↔ y = x ∨ In y l.
Proof.
  induction l as [|z l IH]; simpl.
  - intuition.
  - destruct (Qle_bool x z); simpl; rewrite ?IH; intuition.
Qed.

Lemma sorted_In (y : Q) (l : list Q) : In y (sorted l) ↔ In y l.
Proof.
  induction l as [|x l IH]; simpl; [done|].
  rewrite insert_sorted_In, IH. intuition.
Qed.

Lemma insert_sorted_length (x : Q) (l : list Q) :
  length (insert_sorted x l) = S (length l).
Proof.
  induction l as [|z l IH]; simpl; [done|].
  destruct (Qle_bool x z); simpl; [done|]. by rewrite IH.
Qed.

Lemma sorted_length (l : list Q) : length (sorted l) = length l.
Proof.
  induction l as [|x l IH]; simpl; [done|].
  by rewrite insert_sorted_length, IH.
Qed.

(** Every order statistic lies within bounds that hold for the data. *)
Lemma nth_sorted_bounds (lo hi : Q) (l : list Q) (i : nat) :
  Forall (λ x, lo <= x ∧ x <= hi) l → (i < length l)%nat →
  lo <= nth i (sorted l) 0 ∧ nth i (sorted l) 0 <= hi.
Proof.
  intros Hall Hi. rewrite Forall_forall in Hall. apply Hall.
  apply list_elem_of_In, sorted_In, nth_In. by rewrite sorted_length.
Qed.

Lemma foldl_min_spec (l : list Q) (x : Q) :
  let m := foldl (λ m y, if Qltb y m then y else m) x l in
  (m = x ∨ In m l) ∧ m <= x ∧ Forall (λ y, m <= y) l.
Proof.
  revert x. induction l as [|y l IH]; intros x; simpl.
  - split; [by left|]. split; [apply Qle_refl|constructor].
  - destruct (Qltb y x) eqn:Hlt.
    + apply Qltb_true in Hlt.
      destruct (IH y) as (Hin & Hle & Hall). split; [destruct Hin as [->|?]; auto|].
      split; [lra|]. constructor; [done|done].
    + apply Qltb_false in Hlt.
      destruct (IH x) as (Hin & Hle & Hall). split; [destruct Hin as [->|?]; auto|].
      split; [done|]. constructor; [lra|done].
Qed.

Lemma foldl_max_spec (l : list Q) (x : Q) :
  let m := foldl (λ m y, if Qltb m y then y else m) x l in
  (m = x ∨ In m l) ∧ x <= m ∧ Forall (λ y, y <= m) l.
Proof.
  revert x. induction l as [|y l IH]; intros x; simpl.
  - split; [by left|]. split; [apply Qle_refl|constructor].
  - destruct (Qltb x y) eqn:Hlt.
    + apply Qltb_true in Hlt.
      destruct (IH y) as (Hin & Hle & Hall). split; [destruct Hin as [->|?]; auto|].
      split; [lra|]. constructor; [done|done].
    + apply Qltb_false in Hlt.
      destruct (IH x) as (Hin & Hle & Hall). split; [destruct Hin as [->|?]; auto|].
      split; [done|]. constructor; [lra|done].
Qed.

Lemma pymin_pymax_bounds (l : list Q) :
  l ≠ [] →
  ∃ mn mx, pymin l = Ok mn ∧ pymax l = Ok mx ∧
           Forall (λ x, mn <= x ∧ x <= mx) l.
Proof.
  destruct l as [|x l]; [done|]. intros _. simpl.
  destruct (foldl_min_spec l x) as (_ & Hmn & Hmin).
  destruct (foldl_max_spec l x) as (_ & Hmx & Hmax).
  eexists _, _. split; [done|]. split; [done|].
  constructor; [done|].
  rewrite Forall_forall in Hmin, Hmax. apply Forall_forall.
  intros y Hy. split; [by apply Hmin|by apply Hmax].
Qed.

Lemma median_bounds (lo hi : Q) (l : list Q) :
  l ≠ [] → Forall (λ x, lo <= x ∧ x <= hi) l →
  ∃ med, median l = Ok med ∧ lo <= med ∧ med <= hi.
Proof.
  intros Hne Hall. unfold median. rewrite sorted_length.
  assert (Hlen : (0 < length l)%nat) by (destruct l; simpl; [done|lia]).
  destruct (Nat.eqb_spec (length l) 0) as [Hz|_]; [lia|].
  assert (Hhalf : (length l / 2 < length l)%nat)
    by (apply Nat.div_lt; lia).
  destruct (nth_sorted_bounds lo hi l (length l / 2) Hall Hhalf)
    as [Hlo Hhi].
  destruct (Nat.odd (length l)).
  - eexists. split; [done|]. done.
  - assert (Hprev : (length l / 2 - 1 < length l)%nat) by lia.
    destruct (nth_sorted_bounds lo hi l (length l / 2 - 1) Hall Hprev)
      as [Hlo' Hhi'].
    eexists. split; [done|]. split.
    + apply Qle_shift_div_l; lra.
    + apply Qle_shift_div_r; lra.
Qed.
End StatsFacts.

Section StatsTheorems.
Context `{FloatSqrt}.
Local Open Scope Q_scope.

(** The conversion to microseconds: it succeeds on every sample inside
    the range of the doubles, which the timing samples are, and raises
    [OverflowError] at the first sample outside it. *)
Lemma float_limit_above_samples : (2 ^ 64 <= float_limit)%Z.
Proof. apply Z.leb_le. vm_compute. reflexivity. Qed.

Lemma timing_sample_fits (x : Z) : timing_sample x → float_fits x = true.
Proof.
  unfold timing_sample, float_fits. intros Hx. apply Z.ltb_lt.
  pose proof float_limit_above_samples. lia.
Qed.

Lemma timing_samples_fit (l : list Z) :
  Forall timing_sample l → Forall (λ x, float_fits x = true) l.
Proof. intros Hl. eapply Forall_impl; [exact Hl|apply timing_sample_fits]. Qed.

Lemma one_to_hundred_are_samples : Forall timing_sample one_to_hundred_us.
Proof.
  apply List.Forall_forall. intros x Hx. unfold one_to_hundred_us in Hx.
  apply List.in_map_iff in Hx as (i & <- & Hi). apply List.in_seq in Hi.
  unfold timing_sample. change (2 ^ 64)%Z with 18446744073709551616%Z. lia.
Qed.

Lemma to_us_fits (x : Z) : float_fits x = true → to_us x = Ok (ns_to_us x).
Proof. unfold to_us, float_of_int. by intros ->. Qed.

Lemma to_us_overflow (x : Z) :
  float_fits x = false → to_us x = Raise OverflowError.
Proof. unfold to_us, float_of_int. by intros ->. Qed.

Lemma comprehension_fits (l : list Z) :
  Forall (λ x, float_fits x = true) l →
  comprehension to_us l = Ok (map ns_to_us l).
Proof.
  induction 1 as [|x l Hx _ IH]; [done|].
  cbn [comprehension]. by rewrite (to_us_fits x Hx), IH.
Qed.

Lemma comprehension_overflow (l : list Z) :
  Exists (λ x, float_fits x = false) l →
  comprehension to_us l = Raise OverflowError.
Proof.
  induction 1 as [x l Hx|x l _ IH]; cbn [comprehension].
  - by rewrite (to_us_overflow x Hx).
  - destruct (float_fits x) eqn:Hx.
    + by rewrite (to_us_fits x Hx), IH.
    + by rewrite (to_us_overflow x Hx).
Qed.

Lemma fits_or_not (l : list Z) :
  Forall (λ x, float_fits x = true) l
  ∨ Exists (λ x, float_fits x = false) l.
Proof.
  induction l as [|x l [IH|IH]]; [by left| |right; by apply Exists_cons_tl].
  destruct (float_fits x) eqn:Hx;
    [left; by constructor|right; by apply Exists_cons_hd].
Qed.

(** A sample beyond the range of the doubles: no summary, whatever the
    other samples are. *)
Lemma calculate_stats_overflow (l : list Z) :
  Exists (λ x, float_fits x = false) l →
  _calculate_stats l = Raise OverflowError.
Proof.
  intros Hl. unfold _calculate_stats.
  by rewrite (comprehension_overflow l Hl).
Qed.

(** What [_calculate_stats] returns on a non-empty list of samples that
    convert, field by field. *)
Lemma calculate_stats_nonempty (l : list Z) :
  l ≠ [] → Forall (λ x, float_fits x = true) l →
  let lat := map ns_to_us l in
  ∃ s, _calculate_stats l = Ok s ∧
       avg_us s = sumQ lat / lenQ lat ∧
       median lat = Ok (median_us s) ∧
       p99_us s = percentile lat 99 ∧
       pymin lat = Ok (min_us s) ∧
       pymax lat = Ok (max_us s) ∧
       std_dev_us s = (if (1 <? length lat)%nat
                       then fsqrt (variance lat) else 0).
Proof.
  intros Hne Hfits lat.
  assert (Hlat : lat ≠ []) by (subst lat; destruct l; done).
  destruct (pymin_pymax_bounds lat Hlat) as (mn & mx & Hmn & Hmx & Hall).
  destruct (median_bounds mn mx lat Hlat Hall) as (med & Hmed & _).
  assert (Hmean : mean lat = Ok (sumQ lat / lenQ lat))
    by (destruct lat; done).
  unfold _calculate_stats. rewrite (comprehension_fits l Hfits). fold lat.
  change (Ok lat ≫= ?f) with (f lat). cbv beta.
  rewrite Hmean, Hmed, Hmn, Hmx. unfold mbind, outcome_bind.
  assert (Hsd : ∃ sd, (if (1 <? length lat)%nat then stdev lat else Ok 0)
                      = Ok sd ∧
                      sd = (if (1 <? length lat)%nat
                            then fsqrt (variance lat) else 0)).
  { unfold stdev. destruct (Nat.ltb_spec 1 (length lat)) as [Hlt|Hge].
    - destruct (Nat.ltb_spec (length lat) 2); [lia|]. by eexists.
    - by eexists. }
  destruct Hsd as (sd & -> & Hsd).
  destruct (Qltb 0 (sumQ lat / lenQ lat));
    eexists; (split; [reflexivity|]); simpl; done.
Qed.

(** A summary is returned on the non-empty lists of samples that convert,
    and on no other list. *)
Lemma calculate_stats_Ok (l : list Z) (s : StatSummary) :
  _calculate_stats l = Ok s →
  l ≠ [] ∧ Forall (λ x, float_fits x = true) l.
Proof.
  intros Hs. split.
  - intros ->. discriminate Hs.
  - destruct (fits_or_not l) as [Hfits|Hover]; [done|].
    rewrite (calculate_stats_overflow l Hover) in Hs. discriminate Hs.
Qed.

(** C2. On timing samples (the differences of two readings of the 64-bit
    nanosecond clock), the aggregation fails, with [StatisticsError] (the
    empty-sample error), exactly on the empty sample list; on every
    non-empty list it returns a summary. *)
Theorem calculate_stats_empty_iff (l : list Z) :
  Forall timing_sample l →
  (l = [] ∧ _calculate_stats l = Raise StatisticsError) ∨
  (l ≠ [] ∧ ∃ s, _calculate_stats l = Ok s).
Proof.
  intros Hl. destruct l as [|x l].
  - left. done.
  - right. split; [done|].
    destruct (calculate_stats_nonempty (x :: l)) as (s & Hs & _);
      [done|by apply timing_samples_fit|].
    by exists s.
Qed.

(** C9. For every non-empty list of durations, a summary is computed when
    the durations are timing samples, and every summary that is computed
    satisfies min <= median <= max, min <= mean <= max and stddev >= 0;
    for a single sample, stddev = 0 and mean = median = min = max. *)
Theorem stat_summary_invariant (l : list Z) :
  l ≠ [] →
  (Forall timing_sample l → ∃ s, _calculate_stats l = Ok s)
  ∧ ∀ s, _calculate_stats l = Ok s →
      min_us s <= median_us s ∧ median_us s <= max_us s ∧
      min_us s <= avg_us s ∧ avg_us s <= max_us s ∧
      0 <= std_dev_us s ∧
      (length l = 1%nat →
       std_dev_us s == 0 ∧ avg_us s == median_us s ∧
       median_us s == min_us s ∧ min_us s == max_us s).
Proof.
  intros Hne. split.
  { intros Hl.
    destruct (calculate_stats_nonempty l Hne (timing_samples_fit l Hl))
      as (s & Hs & _).
    by exists s. }
  intros s0 Hs0.
  destruct (calculate_stats_Ok l s0 Hs0) as [_ Hfits].
  destruct (calculate_stats_nonempty l Hne Hfits)
    as (s & Hs & Havg & Hmed & _ & Hmn & Hmx & Hsd).
  rewrite Hs in Hs0. injection Hs0 as <-. clear Hs.
  set (lat := map ns_to_us l) in *.
  assert (Hlat : lat ≠ []) by (subst lat; destruct l; done).
  destruct (pymin_pymax_bounds lat Hlat) as (mn & mx & Hmn' & Hmx' & Hall).
  rewrite Hmn in Hmn'. rewrite Hmx in Hmx'.
  injection Hmn' as <-. injection Hmx' as <-.
  destruct (median_bounds _ _ lat Hlat Hall) as (med & Hmed' & Hm1 & Hm2).
  rewrite Hmed in Hmed'. injection Hmed' as <-.
  destruct (mean_bounds _ _ lat Hlat Hall) as [Ha1 Ha2].
  rewrite <- Havg in Ha1, Ha2.
  assert (Hsd0 : 0 <= std_dev_us s).
  { rewrite Hsd. destruct (1 <? length lat)%nat;
      [apply fsqrt_nonneg|apply Qle_refl]. }
  repeat (split; [assumption|]).
  intros Hone.
  assert (Heq : min_us s = max_us s).
  { destruct l as [|x [|y l]]; simpl in Hone; try lia.
    subst lat. simpl in Hmn, Hmx. congruence. }
  assert (Hsd1 : std_dev_us s = 0).
  { rewrite Hsd. subst lat. rewrite length_map, Hone. done. }
  rewrite Hsd1. rewrite <- Heq in *.
  split; [reflexivity|]. split; [|split; [|reflexivity]].
  - apply Qle_antisym; lra.
  - apply Qle_antisym; lra.
Qed.

(** C3, as amended. The 99th percentile of the samples 1, 2, ..., 100
    microseconds is 99.01: linear interpolation at the index
    0.99 * 99 = 98.01, between the order statistics 99 and 100. *)
Theorem p99_of_one_to_hundred :
  ∃ s, _calculate_stats one_to_hundred_us = Ok s ∧ p99_us s == 9901 # 100.
Proof.
  destruct (calculate_stats_nonempty one_to_hundred_us)
    as (s & Hs & _ & _ & Hp & _);
    [done|apply timing_samples_fit, one_to_hundred_are_samples|].
  exists s. split; [done|]. rewrite Hp. vm_compute. reflexivity.
Qed.
End StatsTheorems.

(** C3, counterexample. The 99th percentile of 1, 2, ..., 100 is not 100. *)
Lemma p99_of_one_to_hundred_is_not_100 :
  ∃ s, _calculate_stats one_to_hundred_us = Ok s ∧ ¬ (p99_us s == 100)%Q.
Proof.
  destruct (calculate_stats_nonempty one_to_hundred_us)
    as (s & Hs & _ & _ & Hp & _);
    [done|apply timing_samples_fit, one_to_hundred_are_samples|].
  exists s. split; [done|]. rewrite Hp. vm_compute. discriminate.
Qed.

(** C2 at the samples 1.5 and 2.5 microseconds. *)
Lemma calculate_stats_empty_iff_witness :
  ∃ s, _calculate_stats [1500; 2500] = Ok s.
Proof.
  destruct (calculate_stats_empty_iff [1500; 2500]) as [[Hnil _]|[_ Hs]].
  - repeat constructor.
  - discriminate Hnil.
  - exact Hs.
Defined.

(** C9 at the samples 5, 1 and 3 microseconds. *)
Lemma stat_summary_invariant_witness :
  ∃ s, _calculate_stats [5000; 1000; 3000] = Ok s ∧
       (min_us s <= median_us s ∧ median_us s <= max_us s ∧
        min_us s <= avg_us s ∧ avg_us s <= max_us s ∧
        0 <= std_dev_us s ∧
        (length [5000; 1000; 3000] = 1%nat →
         std_dev_us s == 0 ∧ avg_us s == median_us s ∧
         median_us s == min_us s ∧ min_us s == max_us s))%Q.
Proof.
  destruct (stat_summary_invariant [5000; 1000; 3000]) as [Hex Hinv].
  - discriminate.
  - destruct Hex as [s Hs]; [repeat constructor|].
    exists s. split; [exact Hs|exact (Hinv s Hs)].
Defined.

(** ** Algorithm adapter *)

Ltac unfold_M :=
  unfold mbind, mret, M_bind, M_ret, outcome_bind, outcome_ret,
    lift, raise, modify, gets, logger, call, getattr, ensure_bytes,
    try_except, except_Exception, except_NoSuchProcess in *;
  cbn in *.

Section AdapterTheorems.

Lemma hasattr_true {A} (m : option pymodule) (attr : pymodule → option A) f :
  m ≫= attr = Some f → hasattr m attr = true.
Proof. intros Hf. unfold hasattr. rewrite Hf. done. Qed.

Lemma hasattr_false {A} (m : option pymodule) (attr : pymodule → option A) :
  m ≫= attr = None → hasattr m attr = false.
Proof.
  intros Hf. unfold hasattr. rewrite Hf. apply bool_decide_eq_false.
  by intros [? ?].
Qed.

(** What [Signature.verify] does on byte-string arguments. *)
Lemma Signature_verify_bytes (self : CryptoAlgorithm) (pk msg sig : bytes)
    (w : world) :
  Signature_verify self (PyBytes pk) (PyBytes msg) (PyBytes sig) w =
  let caught (o : outcome pyval) :=
    match o with
    | Raise e => if is_Exception e then Ok (PyBool false) else Raise e
    | _ => o
    end in
  match module self ≫= mod_verify, module self ≫= mod_open with
  | Some f, _ =>
      (caught (f (PyBytes pk) (PyBytes msg) (PyBytes sig)
                 (provider_calls w)),
       count_provider_call w)
  | None, Some g =>
      (caught (res ← g (PyBytes pk) (PyBytes sig) (provider_calls w);
               Ok (PyBool (py_eq res (PyBytes msg)))),
       count_provider_call w)
  | None, None => (Ok (PyBool false), w)
  end.
Proof.
  unfold Signature_verify.
  destruct (module self ≫= mod_verify) as [f|] eqn:Hv.
  - rewrite (hasattr_true _ _ _ Hv). unfold getattr. rewrite Hv. unfold_M.
    destruct (f _ _ _ _) as [v|e|]; cbn; [done| |done].
    destruct (is_Exception e); done.
  - rewrite (hasattr_false _ _ Hv).
    destruct (module self ≫= mod_open) as [g|] eqn:Ho.
    + rewrite (hasattr_true _ _ _ Ho). unfold getattr. rewrite Ho. unfold_M.
      destruct (g _ _ _) as [v|e|]; cbn; [done| |done].
      destruct (is_Exception e); done.
    + rewrite (hasattr_false _ _ Ho). done.
Qed.

(** C10. When the provider module has neither a [verify] nor an [open]
    attribute, [verify] returns [False] on every triple of byte strings,
    and calls nothing. *)
Theorem verify_without_verify_or_open (self : CryptoAlgorithm)
    (pk msg sig : bytes) (w : world) :
  module self ≫= mod_verify = None →
  module self ≫= mod_open = None →
  Signature_verify self (PyBytes pk) (PyBytes msg) (PyBytes sig) w
  = (Ok (PyBool false), w).
Proof.
  intros Hv Ho. rewrite Signature_verify_bytes, Hv, Ho. reflexivity.
Qed.

(** C5. On every triple of byte strings [verify] raises nothing: a
    failure of the provider's [verify] or [open] (an [Exception], as
    opposed to a cancellation) is caught and the result is [False]. *)
Theorem verify_never_raises (self : CryptoAlgorithm) (pk msg sig : bytes)
    (w : world) :
  provider_failures_are_Exceptions (module self) →
  let r := Signature_verify self (PyBytes pk) (PyBytes msg) (PyBytes sig) w in
  (∀ e, r.1 ≠ Raise e)
  ∧ (∀ f e, module self ≫= mod_verify = Some f →
            f (PyBytes pk) (PyBytes msg) (PyBytes sig) (provider_calls w)
            = Raise e →
            r.1 = Ok (PyBool false))
  ∧ (∀ g e, module self ≫= mod_verify = None →
            module self ≫= mod_open = Some g →
            g (PyBytes pk) (PyBytes sig) (provider_calls w) = Raise e →
            r.1 = Ok (PyBool false)).
Proof.
  intros [Hverify Hopen] r. subst r. rewrite Signature_verify_bytes.
  destruct (module self ≫= mod_verify) as [f|] eqn:Hv.
  - specialize (Hverify f (PyBytes pk) (PyBytes msg) (PyBytes sig)
                  (provider_calls w) eq_refl).
    split; [|split].
    + intros e. cbn. destruct (f _ _ _ _) as [v|e'|]; [done| |done].
      by rewrite (Hverify e' eq_refl).
    + intros f' e [= <-] Hf. cbn. rewrite Hf.
      rewrite Hf in Hverify. by rewrite (Hverify e eq_refl).
    + intros ? ? [=].
  - destruct (module self ≫= mod_open) as [g|] eqn:Ho.
    + specialize (Hopen g (PyBytes pk) (PyBytes sig)
                    (provider_calls w) eq_refl).
      split; [|split].
      * intros e. cbn. destruct (g _ _ _) as [v|e'|]; [done| |done].
        cbn. by rewrite (Hopen e' eq_refl).
      * intros ? ? [=].
      * intros g' e _ [= <-] Hg. cbn. rewrite Hg.
        rewrite Hg in Hopen. cbn. by rewrite (Hopen e eq_refl).
    + split; [done|]. split; [intros ? ? [=]|intros ? ? _ [=]].
Qed.
End AdapterTheorems.

Lemma rejecting_module_fails_with_Exceptions :
  provider_failures_are_Exceptions (Some rejecting_module).
Proof.
  split.
  - intros f a b c n [= <-] e [= <-]. reflexivity.
  - intros g a b n [=].
Qed.

(** C5 at a provider that rejects by raising [ValueError]. *)
Lemma verify_never_raises_witness :
  (Signature_verify (handle Signature "Dilithium2" (Some rejecting_module))
     (PyBytes []) (PyBytes [Byte.x01]) (PyBytes [Byte.x02]) initial_world).1
  = Ok (PyBool false).
Proof.
  pose proof (verify_never_raises (handle Signature "Dilithium2" (Some rejecting_module))
                [] [Byte.x01] [Byte.x02] initial_world
                rejecting_module_fails_with_Exceptions) as (_ & Hv & _).
  exact (Hv _ ValueError eq_refl eq_refl).
Defined.

(** ** The monad *)

Section MonadFacts.
Context {A B : Type}.
Implicit Types (c : M A) (f : A → M B) (w : world).

Lemma bind_Ok c f w a w' : c w = (Ok a, w') → (c ≫= f) w = f a w'.
Proof. intros Hc. unfold mbind, M_bind. by rewrite Hc. Qed.

Lemma bind_Raise c f w e w' :
  c w = (Raise e, w') → (c ≫= f) w = (Raise e, w').
Proof. intros Hc. unfold mbind, M_bind. by rewrite Hc. Qed.

Lemma bind_inv_Ok c f w b w' :
  (c ≫= f) w = (Ok b, w') →
  ∃ a w1, c w = (Ok a, w1) ∧ f a w1 = (Ok b, w').
Proof.
  unfold mbind, M_bind. destruct (c w) as [[a|e|] w1]; [eauto|done|done].
Qed.
End MonadFacts.


Lemma record_samples_data_points l w :
  data_points (record_samples l w) = data_points w ++ l.
Proof.
  revert w. induction l as [|s l IH]; intros w; simpl.
  - by rewrite app_nil_r.
  - rewrite IH. simpl. by rewrite <- app_assoc.
Qed.


(** ** Resource monitor *)


(** ** Benchmark engine *)

Section RunnerFacts.
Context `{FloatSqrt}.
Variable E : env.

Lemma monitor_loop_records (ticks : list tick) (w : world) :
  ∃ l, (_monitor_loop ticks w).2 = record_samples l w.
Proof.
  revert w. induction ticks as [|t ticks IH]; intros w.
  - by exists [].
  - simpl. unfold_M.
    destruct (tick_process_cpu_percent t) as [cpu|e|];
      [|by exists []|by exists []].
    destruct (tick_memory_info t) as [rss|e|]; [|by destruct e; exists []|by exists []].
    destruct (tick_system_cpu_percent t) as [sys|e|];
      [|by exists []|by exists []].
    destruct (tick_cpu_freq t) as [f|e|]; [| |by exists []].
    + edestruct IH as [l Hl]. eexists (_ :: l). rewrite Hl. done.
    + destruct (is_Exception e); [|by exists []].
      edestruct IH as [l Hl]. eexists (_ :: l). cbn. rewrite Hl. done.
Qed.

Lemma record_samples_fields (l : list ResourceSample) (w : world) :
  log (record_samples l w) = log w
  ∧ wall_reads (record_samples l w) = wall_reads w
  ∧ files (record_samples l w) = files w
  ∧ stop_event (record_samples l w) = stop_event w
  ∧ thread (record_samples l w) = thread w
  ∧ micro_benchmarks (record_samples l w) = micro_benchmarks w.
Proof.
  revert w. induction l as [|s l IH]; intros w; [done|].
  simpl. destruct (IH (append_data_point s w)) as (-> & -> & -> & -> & -> & ->).
  done.
Qed.

Lemma join_spec (w : world) :
  ∃ l, join E w
       = (Ok (), match thread w with
                 | Started => set_thread Joined (record_samples l w)
                 | _ => w
                 end).
Proof.
  unfold join, run_thread. unfold_M.
  destruct (monitor_loop_records (sampler_ticks E) w) as [l Hl].
  exists l. destruct (thread w); [done| |done]. by rewrite Hl.
Qed.

Lemma save_data_spec (self : SystemMonitor) (w : world) :
  ∃ w', _save_data E self w = (Ok (), w')
        ∧ stop_event w' = stop_event w ∧ thread w' = thread w
        ∧ wall_reads w' = wall_reads w
        ∧ micro_benchmarks w' = micro_benchmarks w
        ∧ ∃ l, log w' = log w ++ l.
Proof.
  unfold _save_data, write_file. unfold_M.
  destruct (writable E _); cbn; eexists; (split; [reflexivity|]); cbn;
    repeat (split; [done|]); eexists; reflexivity.
Qed.

(** [SystemMonitor.stop] always returns, with the stop flag set and no
    sampling thread left running. *)
Lemma stop_spec (self : SystemMonitor) (w : world) :
  ∃ w', stop E self w = (Ok (), w')
        ∧ stop_event w' = true ∧ thread w' ≠ Started
        ∧ wall_reads w' = wall_reads w
        ∧ micro_benchmarks w' = micro_benchmarks w
        ∧ ∃ l, log w' = log w ++ l.
Proof.
  destruct (join_spec (set_stop_event true w)) as [l Hjoin].
  destruct (record_samples_fields l (set_stop_event true w))
    as (Hlog & Hwall & Hfiles & Hstop & Hth & Hmicro).
  cbn in Hlog, Hwall, Hfiles, Hstop, Hth, Hmicro, Hjoin.
  unfold stop. unfold_M.
  destruct (thread w) eqn:Hthread; cbn; rewrite ?Hjoin; cbn;
    destruct (output_file self) as [[|c p]|]; cbn;
    try match goal with
        | |- context [_save_data E self ?w0] =>
            destruct (save_data_spec self w0)
              as (w2 & -> & Hs2 & Ht2 & Hwl2 & Hm2 & l2 & Hl2);
            cbn in Hs2, Ht2, Hwl2, Hm2, Hl2
        end;
    (eexists; split; [reflexivity|]); cbn;
    rewrite ?Hs2, ?Ht2, ?Hwl2, ?Hm2, ?Hl2, ?Hlog, ?Hwall, ?Hstop, ?Hmicro,
      ?Hthread;
    repeat (split; [done|]); rewrite <- ?app_assoc; by eexists.
Qed.

(** The [finally] block of [run] on a sink that accepts writes. *)
Lemma finalize_spec (self : BenchmarkRunner) (metadata : Metadata)
    (w : world) :
  (∀ p, writable E p = true) →
  ∃ w', finalize E self metadata w = (Ok (), w')
        ∧ stop_event w' = true
        ∧ thread w' ≠ Started
        ∧ files w' !! results_path E self w
          = Some (ResultDoc (stamped E metadata w) (micro_benchmarks w))
        ∧ ∃ l, log w' = log w ++ l.
Proof.
  intros Hwr.
  destruct (stop_spec (monitor self) w)
    as (w1 & Hstop & Hs1 & Ht1 & Hwl1 & Hm1 & l1 & Hl1).
  unfold finalize. rewrite (bind_Ok _ _ _ _ _ Hstop).
  unfold now_isoformat, time, write_file, results_path, stamped. unfold_M.
  rewrite Hwr. cbn. eexists. split; [reflexivity|]. cbn.
  rewrite Hwl1, Hm1, Hl1, lookup_insert_eq, <- app_assoc.
  repeat (split; [done|]). by eexists.
Qed.

(** *** Frame: what never touches [full_results] *)

Lemma keeps_ret {A} (a : A) : keeps_micro (mret a).
Proof. done. Qed.

Lemma keeps_raise {A} (e : exn) : keeps_micro (raise (A:=A) e).
Proof. done. Qed.

Lemma keeps_lift {A} (o : outcome A) : keeps_micro (lift o).
Proof. done. Qed.

Lemma keeps_logger lvl m : keeps_micro (logger lvl m).
Proof. done. Qed.

Lemma keeps_call {A} (f : nat → outcome A) : keeps_micro (call f).
Proof. done. Qed.

Lemma keeps_perf_counter : keeps_micro (perf_counter E).
Proof. done. Qed.

Lemma keeps_time : keeps_micro (time E).
Proof. done. Qed.

Lemma keeps_urandom size : keeps_micro (urandom E size).
Proof. unfold urandom. intros w. by destruct (size <? 0). Qed.

Lemma keeps_bind {A B} (c : M A) (f : A → M B) :
  keeps_micro c → (∀ a, keeps_micro (f a)) → keeps_micro (c ≫= f).
Proof.
  intros Hc Hf w. unfold mbind, M_bind. specialize (Hc w).
  destruct (c w) as [[a|e|] w1]; cbn in *; [|done|done].
  by rewrite Hf.
Qed.

Lemma keeps_try_except {A} (body : M A) clauses :
  keeps_micro body →
  (∀ e handler, clauses e = Some handler → keeps_micro handler) →
  keeps_micro (try_except body clauses).
Proof.
  intros Hb Hh w. unfold try_except. specialize (Hb w).
  destruct (body w) as [[a|e|] w1]; cbn in *; [done| |done].
  destruct (clauses e) as [handler|] eqn:Hc; [|done].
  by rewrite (Hh e handler Hc).
Qed.

Lemma keeps_except_Exception {A} (body : M A) (handler : exn → M A) :
  keeps_micro body → (∀ e, keeps_micro (handler e)) →
  keeps_micro (try_except body (except_Exception handler)).
Proof.
  intros Hb Hh. apply keeps_try_except; [done|].
  intros e h. unfold except_Exception.
  destruct (is_Exception e); [|done]. by intros [= <-].
Qed.

Lemma keeps_for_range {St} n (body : St → M St) s :
  (∀ s, keeps_micro (body s)) → keeps_micro (for_range n body s).
Proof.
  intros Hb. revert s. induction n as [|n IH]; intros s; [done|].
  simpl. by apply keeps_bind.
Qed.

Lemma keeps_for_each {A St} (xs : list A) (body : A → St → M St) s :
  (∀ x s, keeps_micro (body x s)) → keeps_micro (for_each xs body s).
Proof.
  intros Hb. revert s. induction xs as [|x xs IH]; intros s; [done|].
  simpl. by apply keeps_bind.
Qed.

Create HintDb keeps.

Ltac keeps :=
  repeat first
    [ progress intros
    | apply keeps_ret | apply keeps_raise | apply keeps_lift
    | apply keeps_logger | apply keeps_call | apply keeps_perf_counter
    | apply keeps_time | apply keeps_urandom
    | apply keeps_bind | apply keeps_except_Exception
    | apply keeps_for_range | apply keeps_for_each
    | solve [auto 2 with keeps nocore]
    | match goal with
      | |- keeps_micro (match ?x with _ => _ end) => destruct x
      end ].

Lemma keeps_getattr {A} m (attr : pymodule → option A) :
  keeps_micro (getattr m attr).
Proof. unfold getattr. keeps. Qed.
#[local] Hint Resolve keeps_getattr : keeps.

Lemma keeps_ensure_bytes x : keeps_micro (ensure_bytes x).
Proof. unfold ensure_bytes. keeps. Qed.
#[local] Hint Resolve keeps_ensure_bytes : keeps.

Lemma keeps_keygen alg : keeps_micro (keygen alg).
Proof.
  unfold keygen, KEM_keygen, Signature_keygen.
  keeps.
Qed.
#[local] Hint Resolve keeps_keygen : keeps.

Lemma keeps_encaps alg pk : keeps_micro (encaps alg pk).
Proof.
  unfold encaps, KEM_encaps. keeps.
Qed.
#[local] Hint Resolve keeps_encaps : keeps.

Lemma keeps_decaps alg ct sk : keeps_micro (decaps alg ct sk).
Proof.
  unfold decaps, KEM_decaps. keeps.
Qed.
#[local] Hint Resolve keeps_decaps : keeps.

Lemma keeps_sign alg msg sk : keeps_micro (sign alg msg sk).
Proof.
  unfold sign, Signature_sign. keeps.
Qed.
#[local] Hint Resolve keeps_sign : keeps.

Lemma keeps_verify alg pk msg sig : keeps_micro (verify alg pk msg sig).
Proof.
  unfold verify, Signature_verify. keeps.
Qed.
#[local] Hint Resolve keeps_verify : keeps.

Lemma keeps_get_algorithm ty n impl :
  keeps_micro (get_algorithm E ty n impl).
Proof.
  unfold get_algorithm, new_algorithm, _load_module. keeps.
  all: apply keeps_try_except; keeps.
  all: match goal with
       | Hh : (if ?b then _ else _) = Some _ |- _ =>
           destruct b; [injection Hh as <-|done]
       end.
  all: keeps.
Qed.
#[local] Hint Resolve keeps_get_algorithm : keeps.

Lemma keeps_run_warmup alg n : keeps_micro (run_warmup alg n).
Proof. unfold run_warmup. keeps. Qed.
#[local] Hint Resolve keeps_run_warmup : keeps.

Lemma keeps_keygen_trials alg n : keeps_micro (keygen_trials E alg n).
Proof. unfold keygen_trials, _measure_time. keeps. Qed.
#[local] Hint Resolve keeps_keygen_trials : keeps.

Lemma keeps_kem_trials alg pk sk n : keeps_micro (kem_trials E alg pk sk n).
Proof. unfold kem_trials. keeps. Qed.
#[local] Hint Resolve keeps_kem_trials : keeps.

Lemma keeps_sign_trials alg pk sk msg n :
  keeps_micro (sign_trials E alg pk sk msg n).
Proof. unfold sign_trials. keeps. Qed.
#[local] Hint Resolve keeps_sign_trials : keeps.

Lemma keeps_run_micro_benchmarks alg ty item :
  keeps_micro (run_micro_benchmarks E alg ty item).
Proof.
  unfold run_micro_benchmarks, run_micro_benchmarks_with.
  generalize 1000%nat. keeps.
Qed.
#[local] Hint Resolve keeps_run_micro_benchmarks : keeps.

(** *** Loops *)

Lemma for_each_app {A St} (xs ys : list A) (body : A → St → M St) s w :
  for_each (xs ++ ys) body s w
  = (s' ← for_each xs body s; for_each ys body s') w.
Proof.
  revert s w. induction xs as [|x xs IH]; intros s w; simpl.
  - done.
  - unfold mbind, M_bind.
    destruct (body x s w) as [[s1|e|] w1]; [|done|done].
    rewrite IH. done.
Qed.

Lemma for_each_fmap {A B St} (g : A → B) (xs : list A)
    (body : B → St → M St) s w :
  for_each (g <$> xs) body s w = for_each xs (λ x, body (g x)) s w.
Proof.
  revert s w. induction xs as [|x xs IH]; intros s w; simpl; [done|].
  unfold mbind, M_bind.
  destruct (body (g x) s w) as [[s1|e|] w1]; [|done|done]. apply IH.
Qed.

(** A loop whose body raises stops there: the later elements are never
    reached. *)
Lemma for_each_stops {A St} (pre post : list A) (x : A)
    (body : A → St → M St) s w s1 w1 e w2 :
  for_each pre body s w = (Ok s1, w1) →
  body x s1 w1 = (Raise e, w2) →
  for_each (pre ++ x :: post) body s w = (Raise e, w2).
Proof.
  intros Hpre Hx. rewrite for_each_app, (bind_Ok _ _ _ _ _ Hpre).
  simpl. by rewrite (bind_Raise _ _ _ _ _ Hx).
Qed.

(** The two benchmark loops of [run] are one loop over [configured]. *)
Lemma micro_phase_for_each (cfg : Config) (w : world) :
  (benchmark_all E "kem" (algorithms_kem cfg) (warmup_iterations cfg);;
   benchmark_all E "sign" (algorithms_sign cfg) (warmup_iterations cfg)) w
  = for_each (configured cfg)
      (benchmark_configured E (warmup_iterations cfg)) () w.
Proof.
  unfold configured. rewrite for_each_app.
  unfold benchmark_all, mbind, M_bind. rewrite for_each_fmap.
  destruct (algorithms_kem cfg) as [kem|]; simpl.
  - destruct (for_each kem _ () w) as [[[]|e|] w1]; [|done|done].
    rewrite for_each_fmap. by destruct (algorithms_sign cfg).
  - rewrite for_each_fmap. by destruct (algorithms_sign cfg).
Qed.

Lemma phases_stop (fuel : nat) (cfg : Config) (w : world) e w1 :
  for_each (configured cfg)
    (benchmark_configured E (warmup_iterations cfg)) () w = (Raise e, w1) →
  phases E fuel cfg w = (Raise e, w1).
Proof.
  rewrite <- micro_phase_for_each. unfold phases, mbind, M_bind.
  destruct (benchmark_all E "kem" _ _ w) as [[[]|e'|] w'];
    [|by intros [= -> ->]|done].
  destruct (benchmark_all E "sign" _ _ w') as [[[]|e'|] w''];
    [done|by intros [= -> ->]|done].
Qed.

(** *** The result dictionary during the micro-benchmark phase *)

Lemma benchmark_item_Raise ty warmup item w e w' :
  benchmark_item E ty warmup item w = (Raise e, w') →
  micro_benchmarks w' = micro_benchmarks w.
Proof.
  unfold benchmark_item, mbind, M_bind.
  pose proof (keeps_get_algorithm ty (item_name item)
                (item_implementation item) w) as Hg.
  destruct (get_algorithm _ _ _ _ w) as [[alg|e1|] w1];
    [|by intros [= _ <-]|done].
  pose proof (keeps_run_warmup alg warmup w1) as Hw.
  destruct (run_warmup _ _ w1) as [[[]|e2|] w2];
    [|intros [= _ <-]; cbn in *; congruence|done].
  pose proof (keeps_run_micro_benchmarks alg ty item w2) as Hm.
  destruct (run_micro_benchmarks _ _ _ _ w2) as [[res|e3|] w3];
    [done|intros [= _ <-]; cbn in *; congruence|done].
Qed.

Lemma benchmark_item_Ok ty warmup item w w' :
  benchmark_item E ty warmup item w = (Ok (), w') →
  ∃ res, micro_benchmarks w'
         = <[item_name item := res]> (micro_benchmarks w).
Proof.
  unfold benchmark_item, mbind, M_bind.
  pose proof (keeps_get_algorithm ty (item_name item)
                (item_implementation item) w) as Hg.
  destruct (get_algorithm _ _ _ _ w) as [[alg|e1|] w1]; [|done|done].
  pose proof (keeps_run_warmup alg warmup w1) as Hw.
  destruct (run_warmup _ _ w1) as [[[]|e2|] w2]; [|done|done].
  pose proof (keeps_run_micro_benchmarks alg ty item w2) as Hm.
  destruct (run_micro_benchmarks _ _ _ _ w2) as [[res|e3|] w3];
    [|done|done].
  intros [= <-]. exists res. cbn in *. congruence.
Qed.

Lemma benchmarked_names warmup (entries : list (string * AlgorithmSpec))
    (w w' : world) :
  for_each entries (benchmark_configured E warmup) () w = (Ok (), w') →
  dom (micro_benchmarks w')
  = list_to_set ((λ entry, item_name entry.2) <$> entries)
    ∪ dom (micro_benchmarks w).
Proof.
  revert w. induction entries as [|entry entries IH]; intros w; simpl.
  - intros [= <-]. by rewrite union_empty_l_L.
  - intros Hrun. apply bind_inv_Ok in Hrun as ([] & w1 & Hitem & Hrest).
    apply benchmark_item_Ok in Hitem as [res Hres].
    rewrite (IH _ Hrest), Hres, dom_insert_L.
    rewrite (union_comm_L {[_]} (list_to_set _)), <- union_assoc_L.
    done.
Qed.

Lemma preflight_and_start_micro (self : BenchmarkRunner) w metadata w0 :
  preflight_and_start E self w = (Ok metadata, w0) →
  micro_benchmarks w0 = ∅.
Proof.
  unfold preflight_and_start, start, now_isoformat. unfold_M.
  destruct (Qltb 20 (psutil_cpu_percent E)); by intros [= _ <-].
Qed.

(** *** [run] *)

Lemma run_after_preflight (self : BenchmarkRunner) fuel w metadata w0 :
  preflight_and_start E self w = (Ok metadata, w0) →
  run E self fuel w
  = try_finally (try_except (phases E fuel (self_config self))
                   (run_handlers))
      (finalize E self metadata) w0.
Proof. intros Hp. unfold run. by rewrite (bind_Ok _ _ _ _ _ Hp). Qed.

(** A raised exception that a clause handles, followed by the cleanup. *)
Lemma try_finally_handled {A} (body : M A) clauses cleanup
    w e w1 handler (a : A) wh w' :
  body w = (Raise e, w1) →
  clauses e = Some handler →
  handler w1 = (Ok a, wh) →
  cleanup wh = (Ok (), w') →
  try_finally (try_except body clauses) cleanup w = (Ok a, w').
Proof.
  intros Hb Hc Hh Hf. unfold try_finally, try_except.
  by rewrite Hb, Hc, Hh, Hf.
Qed.

(** C8. When a [KeyboardInterrupt] ends the benchmark phases, [run] still
    finalizes and returns: the monitor is stopped, the end time is stamped
    into the metadata, and the results gathered so far are written to the
    output sink. *)
Theorem finalize_runs_on_interrupt (self : BenchmarkRunner) (fuel : nat)
    (w : world) (metadata : Metadata) (w0 w1 : world) :
  preflight_and_start E self w = (Ok metadata, w0) →
  phases E fuel (self_config self) w0 = (Raise KeyboardInterrupt, w1) →
  (∀ p, writable E p = true) →
  ∃ w', run E self fuel w = (Ok (), w')
        ∧ stop_event w' = true
        ∧ thread w' ≠ Started
        ∧ files w' !! results_path E self w1
          = Some (ResultDoc (stamped E metadata w1) (micro_benchmarks w1))
        ∧ (INFO, Benchmark_interrupted) ∈ log w'.
Proof.
  intros Hpre Hphases Hwr.
  rewrite (run_after_preflight _ _ _ _ _ Hpre).
  destruct (finalize_spec self metadata
              (add_log INFO Benchmark_interrupted w1) Hwr)
    as (w' & Hfin & Hstop & Hth & Hfile & l & Hlog).
  exists w'. split.
  { by apply (try_finally_handled _ _ _ _ KeyboardInterrupt w1
                (logger INFO Benchmark_interrupted) ()
                (add_log INFO Benchmark_interrupted w1)). }
  repeat (split; [done|]). rewrite Hlog. cbn.
  apply elem_of_app. left. apply elem_of_app. right. by left.
Qed.

(** C1, as amended. When a configured algorithm fails with an
    [Exception] (on loading its provider, or in a timed call), [run] logs
    the error, skips every later algorithm and the stability phase,
    finalizes and returns; the result document holds exactly the
    algorithms benchmarked before the failing one. *)
Theorem run_stops_at_first_failure (self : BenchmarkRunner) (fuel : nat)
    (w : world) (metadata : Metadata) (w0 wp w1 : world)
    (pre post : list (string * AlgorithmSpec))
    (bad : string * AlgorithmSpec) (e : exn) :
  let warmup := warmup_iterations (self_config self) in
  preflight_and_start E self w = (Ok metadata, w0) →
  configured (self_config self) = pre ++ bad :: post →
  for_each pre (benchmark_configured E warmup) () w0 = (Ok (), wp) →
  benchmark_item E bad.1 warmup bad.2 wp = (Raise e, w1) →
  is_Exception e = true →
  (∀ p, writable E p = true) →
  ∃ w' micro,
    run E self fuel w = (Ok (), w')
    ∧ files w' !! results_path E self w1
      = Some (ResultDoc (stamped E metadata w1) micro)
    ∧ dom micro = list_to_set ((λ entry, item_name entry.2) <$> pre)
    ∧ (ERROR, Benchmark_failed e) ∈ log w'
    ∧ stop_event w' = true ∧ thread w' ≠ Started.
Proof.
  intros warmup Hpre Hcfg Hdone Hbad He Hwr.
  assert (Hphases : phases E fuel (self_config self) w0 = (Raise e, w1)).
  { apply phases_stop. rewrite Hcfg.
    by apply (for_each_stops pre post bad _ _ _ () wp). }
  rewrite (run_after_preflight _ _ _ _ _ Hpre).
  destruct (finalize_spec self metadata
              (add_log ERROR (Benchmark_failed e) w1) Hwr)
    as (w' & Hfin & Hstop & Hth & Hfile & l & Hlog).
  exists w', (micro_benchmarks w1). split.
  { apply (try_finally_handled _ _ _ _ e w1
             (logger ERROR (Benchmark_failed e)) ()
             (add_log ERROR (Benchmark_failed e) w1)); [done| |done|done].
    unfold run_handlers, except_Exception. rewrite He.
    destruct (bool_decide_reflect (e = KeyboardInterrupt)) as [->|_];
      done. }
  split; [done|]. split.
  - rewrite (benchmark_item_Raise _ _ _ _ _ _ Hbad).
    rewrite (benchmarked_names _ _ _ _ Hdone).
    rewrite (preflight_and_start_micro _ _ _ _ Hpre).
    rewrite dom_empty_L. apply union_empty_r_L.
  - split; [|done]. rewrite Hlog. cbn.
    apply elem_of_app. left. apply elem_of_app. right. by left.
Qed.
End RunnerFacts.

(** ** The micro-benchmark phase of a KEM *)

Section MicroBenchmarks.
Context `{FloatSqrt}.
Variable E : env.

(** A counted loop whose body always succeeds and steps an invariant. *)
Lemma for_range_invariant {St} (I : nat → St → Prop) (n : nat)
    (body : St → M St) (k : nat) (s : St) (w : world) :
  I k s →
  (∀ k s w, I k s → ∃ s' w', body s w = (Ok s', w') ∧ I (S k) s') →
  ∃ s' w', for_range n body s w = (Ok s', w') ∧ I (k + n)%nat s'.
Proof.
  intros Hs Hbody. revert k s w Hs.
  induction n as [|n IH]; intros k s w Hs.
  - exists s, w. by rewrite Nat.add_0_r.
  - destruct (Hbody k s w Hs) as (s1 & w1 & Hb & Hs1).
    destruct (IH (S k) s1 w1 Hs1) as (s' & w' & Hrun & Hs').
    exists s', w'. simpl. rewrite (bind_Ok _ _ _ _ _ Hb).
    split; [done|]. by rewrite Nat.add_succ_r.
Qed.

Variable alg : CryptoAlgorithm.
Hypothesis Hclass : class alg = KEM.
Hypothesis Hworks : kem_provider_works (module alg).

Lemma keygen_works (w : world) :
  ∃ pk sk w', keygen alg w = (Ok (PyBytes pk, PyBytes sk), w').
Proof.
  destruct Hworks as (kg & enc & dec & Hkg & _ & _ & Hk & _).
  unfold keygen, KEM_keygen. rewrite Hclass. unfold getattr.
  rewrite Hkg. unfold_M.
  destruct (Hk (provider_calls w)) as (pk & sk & ->). cbn. eauto.
Qed.

Lemma encaps_works (pk : bytes) (w : world) :
  ∃ ct ss w', encaps alg (PyBytes pk) w
              = (Ok (PyBytes ct, PyBytes ss), w').
Proof.
  destruct Hworks as (kg & enc & dec & _ & Henc & _ & _ & He & _).
  unfold encaps, KEM_encaps. rewrite Hclass. unfold getattr.
  rewrite Henc. unfold_M.
  destruct (He (PyBytes pk) (provider_calls w)) as (ct & ss & ->).
  cbn. eauto.
Qed.

Lemma decaps_works (ct sk : bytes) (w : world) :
  ∃ ss w', decaps alg (PyBytes ct) (PyBytes sk) w = (Ok (PyBytes ss), w').
Proof.
  destruct Hworks as (kg & enc & dec & _ & _ & Hdec & _ & _ & Hd).
  unfold decaps, KEM_decaps. rewrite Hclass. unfold getattr.
  rewrite Hdec. unfold_M.
  destruct (Hd (PyBytes sk) (PyBytes ct) (provider_calls w)) as (ss & ->).
  cbn. eauto.
Qed.

(** The difference of two clock readings is a timing sample. *)
Lemma clock_difference_is_sample (m n : nat) :
  timing_sample (perf_counter_ns E n - perf_counter_ns E m).
Proof.
  pose proof (perf_counter_ns_int64 E m) as Hm.
  pose proof (perf_counter_ns_int64 E n) as Hn.
  unfold timing_sample, int64 in *.
  change (2 ^ 63) with 9223372036854775808 in *.
  change (2 ^ 64) with 18446744073709551616. lia.
Qed.

Lemma samples_snoc (l : list Z) (m n : nat) :
  Forall timing_sample l →
  Forall timing_sample (l ++ [perf_counter_ns E n - perf_counter_ns E m]).
Proof.
  intros Hl. apply Forall_app. split; [done|].
  constructor; [apply clock_difference_is_sample|constructor].
Qed.

Lemma keygen_trials_works (n : nat) (w : world) :
  ∃ latencies w', keygen_trials E alg n w = (Ok latencies, w')
                  ∧ length latencies = n
                  ∧ Forall timing_sample latencies.
Proof.
  unfold keygen_trials.
  destruct (for_range_invariant
              (λ k l, length l = k ∧ Forall timing_sample l) n
              (λ latencies,
                 t ← _measure_time E (keygen alg);
                 mret (latencies ++ [t])) 0 [] w)
    as (l & w' & Hrun & Hlen & Hts); [done| |by eauto].
  intros k s w0 [Hk Hs]. unfold _measure_time, perf_counter. unfold_M.
  destruct (keygen_works (count_perf_read w0)) as (pk & sk & w1 & ->).
  eexists _, _. split; [reflexivity|]. split.
  - rewrite length_app. simpl. lia.
  - by apply samples_snoc.
Qed.

Lemma kem_trials_works (pk sk : bytes) (n : nat) (w : world) :
  ∃ enc dec w',
    kem_trials E alg (PyBytes pk) (PyBytes sk) n w = (Ok (enc, dec), w')
    ∧ (length enc = n ∧ Forall timing_sample enc)
    ∧ (length dec = n ∧ Forall timing_sample dec).
Proof.
  unfold kem_trials.
  match goal with
  | |- context [for_range n ?body ?s w] =>
      destruct (for_range_invariant
                  (λ k '(e, d), (length e = k ∧ Forall timing_sample e)
                                ∧ (length d = k ∧ Forall timing_sample d))
                  n body 0 s w)
        as ([enc dec] & w' & Hrun & Hlen)
  end; [done| |by eauto].
  intros k [e d] w0 [[He Hes] [Hd Hds]]. unfold perf_counter. unfold_M.
  destruct (encaps_works pk (count_perf_read w0)) as (ct & ss & w1 & ->).
  destruct (decaps_works ct sk (count_perf_read (count_perf_read w1)))
    as (ss' & w2 & ->).
  eexists (_, _), _. split; [reflexivity|].
  rewrite !length_app. simpl.
  split; (split; [lia|by apply samples_snoc]).
Qed.

Lemma lift_Ok {A} (o : outcome A) (a : A) (w : world) :
  o = Ok a → lift o w = (Ok a, w).
Proof. by intros ->. Qed.

(** The KEM micro-benchmark with any aggregation that accepts 1000
    timing samples: the same three sample lists reach the aggregation,
    whatever it is. *)
Lemma kem_micro_benchmarks_with (params : AlgorithmSpec) (w : world) :
  payload_sizes params = Some [32] →
  ∃ kg enc dec w',
    length kg = 1000%nat ∧ length enc = 1000%nat ∧ length dec = 1000%nat
    ∧ ∀ A (aggregate : list Z → outcome A),
        (∀ l, length l = 1000%nat → Forall timing_sample l →
              ∃ a, aggregate l = Ok a) →
        ∃ a1 a2 a3,
          aggregate kg = Ok a1 ∧ aggregate enc = Ok a2
          ∧ aggregate dec = Ok a3
          ∧ run_micro_benchmarks_with E aggregate alg "kem" params w
            = (Ok (<["decaps_size_32" := a3]>
                     (<["encaps_size_32" := a2]>
                        (<["keygen" := a1]> ∅))), w').
Proof.
  intros Hps.
  destruct (keygen_trials_works 1000
              (add_log INFO (Running_micro_benchmarks (name alg)) w))
    as (kg & w1 & Hkg & Hlkg & Hskg).
  destruct (keygen_works w1) as (pk & sk & w2 & Hkeys).
  destruct (kem_trials_works pk sk 1000 w2)
    as (enc & dec & w3 & Htrials & [Hlenc Hsenc] & [Hldec Hsdec]).
  exists kg, enc, dec, w3. repeat (split; [done|]).
  intros A aggregate Htotal.
  destruct (Htotal kg Hlkg Hskg) as [a1 Ha1].
  destruct (Htotal enc Hlenc Hsenc) as [a2 Ha2].
  destruct (Htotal dec Hldec Hsdec) as [a3 Ha3].
  exists a1, a2, a3. repeat (split; [done|]).
  unfold run_micro_benchmarks_with. cbv zeta.
  rewrite (bind_Ok (logger _ _) _ w ()
             (add_log INFO (Running_micro_benchmarks (name alg)) w))
    by reflexivity.
  rewrite (bind_Ok _ _ _ _ _ Hkg).
  rewrite (bind_Ok _ _ _ _ _ (lift_Ok _ _ _ Ha1)).
  rewrite (bind_Ok _ _ _ _ _ Hkeys). cbv beta iota.
  rewrite Hps. cbn [default for_each bool_decide decide_rel].
  rewrite bool_decide_eq_true_2 by done.
  cbn [for_each].
  unfold id. cbn [for_each]. cbv beta.
  assert (Hk1 : "encaps_size_" +:+ pretty 32 = "encaps_size_32")
    by (vm_compute; reflexivity).
  assert (Hk2 : "decaps_size_" +:+ pretty 32 = "decaps_size_32")
    by (vm_compute; reflexivity).
  rewrite Hk1, Hk2.
  erewrite bind_Ok; [reflexivity|].
  rewrite (bind_Ok _ _ _ _ _ Htrials). cbv beta iota.
  rewrite (bind_Ok _ _ _ _ _ (lift_Ok _ _ _ Ha2)).
  rewrite (bind_Ok _ _ _ _ _ (lift_Ok _ _ _ Ha3)).
  reflexivity.
Qed.

(** C7, as amended. For a KEM with [payload_sizes: [32]] whose provider
    calls succeed, the record has exactly the keys [keygen],
    [encaps_size_32] and [decaps_size_32], each the summary of exactly
    1000 timing samples: the trial count is fixed, not configured. *)
Theorem kem_record_keys_and_sample_count (params : AlgorithmSpec)
    (w : world) :
  payload_sizes params = Some [32] →
  ∃ (kg enc dec : list Z) (s1 s2 s3 : StatSummary) (w' : world),
    let record : gmap string StatSummary :=
      <["decaps_size_32" := s3]>
        (<["encaps_size_32" := s2]> (<["keygen" := s1]> ∅)) in
    run_micro_benchmarks E alg "kem" params w = (Ok record, w')
    ∧ dom record = {[ "keygen"; "encaps_size_32"; "decaps_size_32" ]}
    ∧ run_micro_benchmarks_with E Ok alg "kem" params w
      = (Ok (<["decaps_size_32" := dec]>
               (<["encaps_size_32" := enc]> (<["keygen" := kg]> ∅))), w')
    ∧ length kg = 1000%nat ∧ _calculate_stats kg = Ok s1
    ∧ length enc = 1000%nat ∧ _calculate_stats enc = Ok s2
    ∧ length dec = 1000%nat ∧ _calculate_stats dec = Ok s3.
Proof.
  intros Hps.
  destruct (kem_micro_benchmarks_with params w Hps)
    as (kg & enc & dec & w' & Hlkg & Hlenc & Hldec & Hagg).
  destruct (Hagg StatSummary _calculate_stats)
    as (s1 & s2 & s3 & Hs1 & Hs2 & Hs3 & Hrun).
  { intros l Hl Hsamples.
    destruct (calculate_stats_nonempty l) as (s & Hs & _);
      [by intros ->|by apply timing_samples_fit|by exists s]. }
  destruct (Hagg (list Z) Ok) as (? & ? & ? & [= <-] & [= <-] & [= <-] & Hraw).
  { intros l _ _. by exists l. }
  exists kg, enc, dec, s1, s2, s3, w'. cbv zeta.
  split; [exact Hrun|]. split.
  { rewrite !dom_insert_L, dom_empty_L.
    apply set_eq. intros k. rewrite !elem_of_union, !elem_of_singleton.
    rewrite elem_of_empty. tauto. }
  done.
Qed.
End MicroBenchmarks.

(** ** Examples and counterexamples *)

(** [run_to H c] evaluates the closed computation [c] and records the
    result as [H : c = result]. *)
Ltac run_to H c :=
  let r := eval vm_compute in c in
  assert (H : c = r) by (vm_compute; reflexivity).

(** C4, as amended. With the [pqcrypto] implementation, the module name is
    the registered binding of the algorithm name and, without one, the
    name itself; construction fails exactly when importing that module
    fails, with the import's own error in both cases (an [ImportError] is
    logged first), and otherwise yields a handle on the module. *)
Theorem construction_follows_import (E : env) (c : alg_class) (n : string)
    (w : world) :
  let module_name := default n (PQCRYPTO_MAPPING !! n) in
  new_algorithm E c n "pqcrypto" w =
  match import_module E module_name with
  | Ok m =>
      (Ok {| class := c; name := n; implementation := "pqcrypto";
             module := Some m |}, w)
  | Raise e =>
      (Raise e,
       if bool_decide (e = ImportError)
       then add_log ERROR (Failed_to_load module_name n e) w else w)
  | OutOfFuel => (OutOfFuel, w)
  end.
Proof.
  unfold new_algorithm, _load_module.
  rewrite bool_decide_eq_true_2 by done. unfold_M.
  destruct (import_module E _) as [m|e|]; cbn; [done| |done].
  destruct (bool_decide (e = ImportError)); done.
Qed.

(** C4, counterexample. A name without a registered binding that names an
    importable module constructs a handle. *)
Lemma unregistered_name_constructs :
  PQCRYPTO_MAPPING !! "pqcrypto.kem.mceliece348864" = None
  ∧ get_algorithm lab_env "kem" "pqcrypto.kem.mceliece348864" "pqcrypto"
      initial_world
    = (Ok (handle KEM "pqcrypto.kem.mceliece348864" (Some kem_module)),
       initial_world).
Proof. split; vm_compute; reflexivity. Qed.

(** C10 at a provider with [sign] only. *)
Lemma verify_without_verify_or_open_witness :
  Signature_verify (handle Signature "Dilithium2" (Some bare_module))
    (PyBytes [Byte.x01]) (PyBytes [Byte.x02]) (PyBytes [Byte.x03])
    initial_world
  = (Ok (PyBool false), initial_world).
Proof.
  apply (verify_without_verify_or_open
           (handle Signature "Dilithium2" (Some bare_module))
           [Byte.x01] [Byte.x02] [Byte.x03] initial_world);
    reflexivity.
Defined.



Lemma kem_module_works : kem_provider_works (Some kem_module).
Proof.
  eexists _, _, _. repeat (split; [reflexivity|]).
  split; [|split]; intros; eexists _, _ || eexists; reflexivity.
Qed.

(** C7, counterexample. With a trial count of 10 written into the
    configuration, every entry is still aggregated over 1000 samples. *)
Lemma trial_count_is_not_configurable :
  ∃ samples w',
    run_micro_benchmarks_with lab_env Ok
      (handle KEM "ML-KEM-512" (Some kem_module)) "kem"
      (kem_item "ML-KEM-512") initial_world = (Ok samples, w')
    ∧ length <$> samples
      = {[ "keygen" := 1000%nat; "encaps_size_32" := 1000%nat;
           "decaps_size_32" := 1000%nat ]}
    ∧ (length <$> samples) !! "keygen" ≠ Some 10%nat.
Proof.
  run_to Hrun (run_micro_benchmarks_with lab_env Ok
                 (handle KEM "ML-KEM-512" (Some kem_module)) "kem"
                 (kem_item "ML-KEM-512") initial_world).
  eexists _, _. split; [exact Hrun|].
  split; vm_compute; [reflexivity|discriminate].
Qed.

(** C7 at the always-succeeding KEM provider. *)
Lemma kem_record_keys_and_sample_count_witness :
  ∃ (kg enc dec : list Z) (s1 s2 s3 : StatSummary) (w' : world),
    let record : gmap string StatSummary :=
      <["decaps_size_32" := s3]>
        (<["encaps_size_32" := s2]> (<["keygen" := s1]> ∅)) in
    run_micro_benchmarks lab_env (handle KEM "ML-KEM-512" (Some kem_module))
      "kem" (kem_item "ML-KEM-512") initial_world = (Ok record, w')
    ∧ dom record = {[ "keygen"; "encaps_size_32"; "decaps_size_32" ]}
    ∧ run_micro_benchmarks_with lab_env Ok
        (handle KEM "ML-KEM-512" (Some kem_module)) "kem"
        (kem_item "ML-KEM-512") initial_world
      = (Ok (<["decaps_size_32" := dec]>
               (<["encaps_size_32" := enc]> (<["keygen" := kg]> ∅))), w')
    ∧ length kg = 1000%nat ∧ _calculate_stats kg = Ok s1
    ∧ length enc = 1000%nat ∧ _calculate_stats enc = Ok s2
    ∧ length dec = 1000%nat ∧ _calculate_stats dec = Ok s3.
Proof.
  apply (kem_record_keys_and_sample_count lab_env
           (handle KEM "ML-KEM-512" (Some kem_module)) eq_refl
           kem_module_works (kem_item "ML-KEM-512") initial_world eq_refl).
Defined.

(** C1, counterexample. The first of two configured KEMs fails to load;
    the second one is absent from the result document. *)
Lemma later_algorithms_are_dropped :
  ∃ w' metadata micro,
    run lab_env (lab_runner two_kems) 100 initial_world = (Ok (), w')
    ∧ files w' !! "data/benchmark_results_2.json"
      = Some (ResultDoc metadata micro)
    ∧ micro !! "ML-KEM-512" = None.
Proof.
  run_to Hrun (run lab_env (lab_runner two_kems) 100 initial_world).
  eexists _, _, _. split; [exact Hrun|].
  split; vm_compute; reflexivity.
Qed.

(** C1 at the same two KEMs. *)
Lemma run_stops_at_first_failure_witness :
  ∃ w' micro,
    run lab_env (lab_runner two_kems) 100 initial_world = (Ok (), w')
    ∧ (∃ path metadata, files w' !! path = Some (ResultDoc metadata micro))
    ∧ dom micro = (∅ : gset string)
    ∧ (ERROR, Benchmark_failed ImportError) ∈ log w'.
Proof.
  run_to Hpre (preflight_and_start lab_env (lab_runner two_kems)
                 initial_world).
  match type of Hpre with
  | _ = (_, ?w0) =>
      run_to Hbad (benchmark_item lab_env "kem" 5
                     (kem_item "NoSuchAlgorithm") w0)
  end.
  destruct (run_stops_at_first_failure lab_env (lab_runner two_kems) 100
              initial_world _ _ _ _ [] [("kem", kem_item "ML-KEM-512")]
              ("kem", kem_item "NoSuchAlgorithm") ImportError
              Hpre eq_refl eq_refl Hbad eq_refl (λ _, eq_refl))
    as (w' & micro & Hrun & Hfile & Hdom & Hlog & _).
  exists w', micro. split; [exact Hrun|]. split; [eauto|].
  split; [exact Hdom|exact Hlog].
Defined.

(** C8 at a run that Ctrl-C interrupts during warmup. *)
Lemma finalize_runs_on_interrupt_witness :
  ∃ w', run lab_env (lab_runner interrupted_kems) 100 initial_world
        = (Ok (), w')
        ∧ stop_event w' = true
        ∧ thread w' ≠ Started
        ∧ (∃ path metadata micro,
             files w' !! path = Some (ResultDoc metadata micro)
             ∧ is_Some (end_time metadata))
        ∧ (INFO, Benchmark_interrupted) ∈ log w'.
Proof.
  run_to Hpre (preflight_and_start lab_env (lab_runner interrupted_kems)
                 initial_world).
  match type of Hpre with
  | _ = (_, ?w0) =>
      run_to Hint (phases lab_env 100 (lab_config interrupted_kems) w0)
  end.
  destruct (finalize_runs_on_interrupt lab_env (lab_runner interrupted_kems)
              100 initial_world _ _ _ Hpre Hint (λ _, eq_refl))
    as (w' & Hrun & Hstop & Hth & Hfile & Hlog).
  exists w'. repeat (split; [assumption|]). split; [|exact Hlog].
  eexists _, _, _. split; [exact Hfile|]. by eexists.
Defined.

(** * Further properties *)

(** ** More on the stats aggregator *)

(** Let [lia] reason about division and remainder by constants. *)
Local Ltac Zify.zify_post_hook ::= Z.div_mod_to_equations.

Section MoreStats.
Context `{FloatSqrt}.
Local Open Scope Q_scope.

(** [sorted] returns an ascending list. *)
Lemma insert_sorted_ascending (x : Q) (l : list Q) :
  StronglySorted Qle l → StronglySorted Qle (insert_sorted x l).
Proof.
  induction 1 as [|y l Hl IH Hy]; simpl.
  - repeat constructor.
  - destruct (Qle_bool x y) eqn:Hxy.
    + apply Qle_bool_iff in Hxy. constructor; [by constructor|].
      constructor; [done|].
      eapply Forall_impl; [exact Hy|]. intros z Hz. cbn in Hz. lra.
    + assert (Hyx : y <= x).
      { apply Qlt_le_weak, Qnot_le_lt. intros Hle.
        apply Qle_bool_iff in Hle. congruence. }
      constructor; [done|].
      apply Forall_forall. intros z Hz.
      apply list_elem_of_In, insert_sorted_In in Hz as [->|Hz]; [done|].
      rewrite Forall_forall in Hy. apply Hy. by apply list_elem_of_In.
Qed.

Lemma sorted_ascending (l : list Q) : StronglySorted Qle (sorted l).
Proof.
  induction l as [|x l IH]; simpl; [constructor|].
  by apply insert_sorted_ascending.
Qed.

Lemma ascending_nth (l : list Q) (i j : nat) :
  StronglySorted Qle l → (i <= j)%nat → (j < length l)%nat →
  nth i l 0 <= nth j l 0.
Proof.
  intros Hl. revert i j. induction Hl as [|x l Hl IH Hx]; intros i j Hij Hj.
  - simpl in Hj. lia.
  - destruct i as [|i], j as [|j]; simpl in *; try lia.
    + apply Qle_refl.
    + rewrite Forall_forall in Hx. apply Hx, list_elem_of_In, nth_In. lia.
    + apply IH; lia.
Qed.

(** Order statistics are monotone in their index. *)
Lemma order_statistics_monotone (l : list Q) (i j : nat) :
  (i <= j)%nat → (j < length l)%nat →
  nth i (sorted l) 0 <= nth j (sorted l) 0.
Proof.
  intros. apply ascending_nth; [apply sorted_ascending|done|].
  by rewrite sorted_length.
Qed.

(** The interpolation weight of [percentile] lies in [0, 1). *)
Lemma gamma_range (k : nat) :
  0 <= Z.of_nat (k mod 100) # 100 ∧ Z.of_nat (k mod 100) # 100 < 1.
Proof.
  pose proof (Nat.mod_upper_bound k 100 ltac:(lia)).
  unfold Qle, Qlt. simpl. lia.
Qed.

(** A percentile lies between the order statistics around its index. *)
Lemma percentile_between (l : list Q) (q : nat) :
  l ≠ [] → (q <= 100)%nat →
  let n := length l in
  let prev := ((n - 1) * q / 100)%nat in
  let next := Nat.min (prev + 1) (n - 1) in
  (prev <= next)%nat ∧ (next < n)%nat
  ∧ nth prev (sorted l) 0 <= percentile l q
  ∧ percentile l q <= nth next (sorted l) 0.
Proof.
  intros Hne Hq n prev next.
  assert (Hn : (0 < n)%nat) by (subst n; destruct l; simpl; [done|lia]).
  assert (Hprev : (prev <= n - 1)%nat).
  { subst prev. apply Nat.Div0.div_le_upper_bound. nia. }
  assert (Hnext : (prev <= next)%nat ∧ (next < n)%nat) by (subst next; lia).
  destruct Hnext as [Hpn Hnn]. split; [done|]. split; [done|].
  unfold percentile. rewrite sorted_length. fold n. fold prev. fold next.
  pose proof (order_statistics_monotone l prev next Hpn Hnn) as Hmono.
  destruct (gamma_range ((n - 1) * q)) as [Hg0 Hg1].
  set (a := nth prev (sorted l) 0) in *.
  set (b := nth next (sorted l) 0) in *.
  set (g := Z.of_nat ((n - 1) * q mod 100) # 100) in *.
  assert (Hprod : 0 <= (b - a) * g) by (apply Qmult_le_0_compat; lra).
  assert (Hprod' : 0 <= (b - a) * (1 - g)) by (apply Qmult_le_0_compat; lra).
  split; [lra|].
  assert (Heq : b - (a + (b - a) * g) == (b - a) * (1 - g)) by ring.
  lra.
Qed.

(** The median is at most the 99th percentile. *)
Lemma median_le_p99 (l : list Q) (med : Q) :
  l ≠ [] → median l = Ok med → med <= percentile l 99.
Proof.
  intros Hne Hmed.
  destruct (percentile_between l 99 Hne ltac:(lia)) as (Hpn & Hnn & Hlo & _).
  set (n := length l) in *. set (prev := ((n - 1) * 99 / 100)%nat) in *.
  assert (Hn : (0 < n)%nat) by (subst n; destruct l; simpl; [done|lia]).
  unfold median in Hmed. rewrite sorted_length in Hmed. fold n in Hmed.
  destruct (Nat.eqb_spec n 0) as [|_]; [lia|].
  remember (n / 2)%nat as half eqn:Hhalf.
  pose proof (order_statistics_monotone l) as Hmono.
  fold n in Hmono.
  destruct (Nat.odd n) eqn:Hodd.
  - injection Hmed as <-.
    apply Nat.odd_spec in Hodd as [m Hm].
    assert (Hidx : (half <= prev)%nat) by (subst prev; lia).
    exact (Qle_trans _ _ _ (Hmono half prev Hidx ltac:(lia)) Hlo).
  - injection Hmed as <-.
    assert (Heven : Nat.even n = true)
      by (rewrite <- Nat.negb_odd, Hodd; done).
    apply Nat.even_spec in Heven as [m Hm].
    assert (Hh : half = m) by lia.
    destruct (decide (m = 1%nat)) as [->|Hm1].
    + unfold percentile. rewrite sorted_length. fold n. rewrite Hm, Hh.
      replace ((2 * 1 - 1) * 99 / 100)%nat with 0%nat by reflexivity.
      replace ((2 * 1 - 1) * 99 mod 100)%nat with 99%nat by reflexivity.
      replace (Nat.min (0 + 1) (2 * 1 - 1)) with 1%nat by reflexivity.
      replace (1 - 1)%nat with 0%nat by reflexivity.
      pose proof (Hmono 0%nat 1%nat ltac:(lia) ltac:(lia)) as Hab.
      clear Hmono. clearbody prev n.
      set (a := nth 0 (sorted l) 0) in *.
      set (b := nth 1 (sorted l) 0) in *.
      change (Z.of_nat 99 # 100) with (99 # 100).
      apply Qle_shift_div_r; lra.
    + assert (Hidx : (half <= prev)%nat) by (subst prev; lia).
      pose proof (Hmono (half - 1)%nat half ltac:(lia) ltac:(lia)) as Hm1'.
      pose proof (Qle_trans _ _ _ (Hmono half prev Hidx ltac:(lia)) Hlo)
        as Hm2'.
      clear Hmono. clearbody prev n.
      set (a := nth (half - 1) (sorted l) 0) in *.
      set (b := nth half (sorted l) 0) in *.
      set (p := percentile l 99) in *.
      apply Qle_shift_div_r; lra.
Qed.

(** X1. On every non-empty list of timing samples the summary is ordered:
    the median is at most the 99th percentile, which is at most the
    maximum. *)
Theorem p99_between_median_and_max (l : list Z) :
  l ≠ [] → Forall timing_sample l →
  ∃ s, _calculate_stats l = Ok s
       ∧ median_us s <= p99_us s ∧ p99_us s <= max_us s.
Proof.
  intros Hne Hl.
  destruct (calculate_stats_nonempty l Hne (timing_samples_fit l Hl))
    as (s & Hs & _ & Hmed & Hp99 & Hmn & Hmx & _).
  set (lat := map ns_to_us l) in *.
  assert (Hlat : lat ≠ []) by (subst lat; destruct l; done).
  exists s. split; [done|]. rewrite Hp99. split.
  - by apply median_le_p99.
  - destruct (pymin_pymax_bounds lat Hlat) as (mn & mx & _ & Hmx' & Hall).
    rewrite Hmx in Hmx'. injection Hmx' as <-.
    destruct (percentile_between lat 99 Hlat ltac:(lia))
      as (_ & Hnn & _ & Hhi).
    pose proof (nth_sorted_bounds _ _ lat _ Hall Hnn) as [_ Hb]. lra.
Qed.
End MoreStats.

Lemma p99_between_median_and_max_witness :
  ∃ s, _calculate_stats [7000; 1000; 4000; 2000] = Ok s
       ∧ (median_us s <= p99_us s ∧ p99_us s <= max_us s)%Q.
Proof.
  apply (p99_between_median_and_max [7000; 1000; 4000; 2000]).
  - discriminate.
  - repeat constructor.
Defined.

Section Throughput.
Context `{FloatSqrt}.
Local Open Scope Q_scope.





End Throughput.


Section Extremes.
Context `{FloatSqrt}.
Local Open Scope Q_scope.

(** X3. On a non-empty list of timing samples, the reported minimum and
    maximum are samples (in microseconds), and every sample lies between
    them. *)
Theorem min_and_max_are_samples (l : list Z) :
  l ≠ [] → Forall timing_sample l →
  ∃ s, _calculate_stats l = Ok s
       ∧ In (min_us s) (map ns_to_us l) ∧ In (max_us s) (map ns_to_us l)
       ∧ Forall (λ x, min_us s <= ns_to_us x ∧ ns_to_us x <= max_us s) l.
Proof.
  intros Hne Hl.
  destruct (calculate_stats_nonempty l Hne (timing_samples_fit l Hl))
    as (s & Hs & _ & _ & _ & Hmn & Hmx & _).
  exists s. split; [done|].
  destruct (map ns_to_us l) as [|x lat] eqn:Hlat; [by destruct l|].
  simpl in Hmn, Hmx. injection Hmn as Hmn. injection Hmx as Hmx.
  destruct (foldl_min_spec lat x) as (Hin1 & Hle1 & Hall1).
  destruct (foldl_max_spec lat x) as (Hin2 & Hle2 & Hall2).
  cbv zeta in Hin1, Hle1, Hall1, Hin2, Hle2, Hall2.
  rewrite Hmn in Hin1, Hle1, Hall1. rewrite Hmx in Hin2, Hle2, Hall2.
  split; [simpl; destruct Hin1 as [->|?]; auto|].
  split; [simpl; destruct Hin2 as [->|?]; auto|].
  apply Forall_forall. intros z Hz.
  assert (Hq : In (ns_to_us z) (x :: lat)).
  { rewrite <- Hlat. apply in_map. by apply list_elem_of_In. }
  rewrite Forall_forall in Hall1, Hall2.
  destruct Hq as [<-|Hq]; [done|].
  split; [apply Hall1|apply Hall2]; by apply list_elem_of_In.
Qed.
End Extremes.

Lemma min_and_max_are_samples_witness :
  ∃ s, _calculate_stats [7000; 1000; 4000] = Ok s
       ∧ In (min_us s) (map ns_to_us [7000; 1000; 4000])
       ∧ In (max_us s) (map ns_to_us [7000; 1000; 4000])
       ∧ Forall (λ x, (min_us s <= ns_to_us x ∧ ns_to_us x <= max_us s)%Q)
           [7000; 1000; 4000].
Proof.
  apply (min_and_max_are_samples [7000; 1000; 4000]).
  - discriminate.
  - repeat constructor.
Defined.

(** ** More on the algorithm adapter *)

Lemma py_bytes_is_bytes (x y : pyval) :
  py_bytes x = Ok y → ∃ b, y = PyBytes b.
Proof.
  destruct x as [|b|z|s|b|b]; simpl; try done.
  - intros [= <-]. eauto.
  - destruct (z <? 0); [done|]. intros [= <-]. eauto.
  - intros [= <-]. eauto.
  - intros [= <-]. eauto.
Qed.

(** X4. Encapsulation followed by decapsulation gives back the shared secret
    of the encapsulation, for a provider whose [decrypt] inverts its
    [encrypt] on the key pair: the adapter's swap of the provider's
    argument order and of its result pair loses nothing. *)
Theorem kem_round_trip (self : CryptoAlgorithm) enc dec (pk sk : bytes)
    (ct ss : pyval) (w w1 : world) :
  module self ≫= mod_encrypt = Some enc →
  module self ≫= mod_decrypt = Some dec →
  kem_correct_for enc dec pk sk →
  KEM_encaps self (PyBytes pk) w = (Ok (ct, ss), w1) →
  KEM_decaps self ct (PyBytes sk) w1 = (Ok ss, count_provider_call w1).
Proof.
  intros Henc Hdec Hcorrect.
  unfold KEM_encaps, KEM_decaps, getattr. rewrite Henc, Hdec. unfold_M.
  destruct (enc (PyBytes pk) (provider_calls w)) as [[ct0 ss0]| |] eqn:He;
    [|done|done].
  destruct (py_bytes ct0) as [ct'| |] eqn:Hct; [|done|done].
  destruct (py_bytes ss0) as [ss'| |] eqn:Hss; [|done|done].
  intros [= <- <- <-].
  destruct (py_bytes_is_bytes _ _ Hct) as [cb ->].
  destruct (py_bytes_is_bytes _ _ Hss) as [sb ->].
  destruct (Hcorrect _ _ _ _ _ (S (provider_calls w)) He Hct Hss)
    as (r & Hr & Hrb).
  cbn. rewrite Hr. cbn. by rewrite Hrb.
Qed.

Lemma Signature_sign_Ok (self : CryptoAlgorithm) sg (msg sk : bytes)
    (sig : pyval) (w w1 : world) :
  module self ≫= mod_sign = Some sg →
  Signature_sign self (PyBytes msg) (PyBytes sk) w = (Ok sig, w1) →
  ∃ sig0 sb, sg (PyBytes sk) (PyBytes msg) (provider_calls w) = Ok sig0
             ∧ py_bytes sig0 = Ok (PyBytes sb)
             ∧ sig = PyBytes sb ∧ w1 = count_provider_call w.
Proof.
  intros Hsg. unfold Signature_sign, getattr. rewrite Hsg. unfold_M.
  destruct (sg (PyBytes sk) (PyBytes msg) (provider_calls w))
    as [sig0| |] eqn:Hs; [|done|done].
  destruct (py_bytes sig0) as [sig'| |] eqn:Hb; [|done|done].
  intros [= <- <-].
  destruct (py_bytes_is_bytes _ _ Hb) as [sb ->]. by exists sig0, sb.
Qed.

(** X5. A signature made by [sign] is accepted by [verify], for a provider
    whose [verify] accepts its own signatures or, when it has no
    [verify], whose [open] recovers the signed message. *)
Theorem sign_then_verify (self : CryptoAlgorithm) sg (pk sk msg : bytes)
    (sig : pyval) (w w1 : world) :
  module self ≫= mod_sign = Some sg →
  ((∃ vf, module self ≫= mod_verify = Some vf ∧ verify_accepts sg vf pk sk)
   ∨ (module self ≫= mod_verify = None
      ∧ ∃ op, module self ≫= mod_open = Some op
              ∧ open_recovers sg op pk sk)) →
  Signature_sign self (PyBytes msg) (PyBytes sk) w = (Ok sig, w1) →
  ∃ sb, sig = PyBytes sb
        ∧ Signature_verify self (PyBytes pk) (PyBytes msg) sig w1
          = (Ok (PyBool true), count_provider_call w1).
Proof.
  intros Hsg Hconv Hsign.
  destruct (Signature_sign_Ok _ _ _ _ _ _ _ Hsg Hsign)
    as (sig0 & sb & Hs & Hb & -> & ->).
  exists sb. split; [done|]. rewrite Signature_verify_bytes.
  destruct Hconv as [(vf & Hvf & Hacc)|(Hnone & op & Hop & Hrec)].
  - rewrite Hvf. cbn.
    by rewrite (Hacc _ _ _ _ (S (provider_calls w)) Hs Hb).
  - rewrite Hnone, Hop. cbn.
    rewrite (Hrec _ _ _ _ (S (provider_calls w)) Hs Hb). cbn.
    by rewrite bool_decide_eq_true_2.
Qed.

(** X6. An attached-signature provider whose [open] returns another message
    than the one given makes [verify] answer [False]. *)
Theorem verify_open_mismatch (self : CryptoAlgorithm) op
    (pk msg sig other : bytes) (w : world) :
  module self ≫= mod_verify = None →
  module self ≫= mod_open = Some op →
  op (PyBytes pk) (PyBytes sig) (provider_calls w) = Ok (PyBytes other) →
  other ≠ msg →
  Signature_verify self (PyBytes pk) (PyBytes msg) (PyBytes sig) w
  = (Ok (PyBool false), count_provider_call w).
Proof.
  intros Hv Ho Hop Hne. rewrite Signature_verify_bytes, Hv, Ho. cbn.
  rewrite Hop. cbn. by rewrite bool_decide_eq_false_2.
Qed.

(** X7. The [bytes()] guards of [verify] sit outside its [try]: a bytearray
    argument is converted and handled like bytes, a [str] or [None]
    argument raises [TypeError] before the provider is called. *)
Theorem verify_argument_guards (self : CryptoAlgorithm) (w : world) :
  (∀ pk msg sig,
     Signature_verify self (PyByteArray pk) (PyByteArray msg)
       (PyByteArray sig) w
     = Signature_verify self (PyBytes pk) (PyBytes msg) (PyBytes sig) w)
  ∧ (∀ x msg sig, x = PyNone ∨ (∃ s, x = PyStr s) →
       Signature_verify self x msg sig w = (Raise TypeError, w))
  ∧ (∀ pk msg x, x = PyNone ∨ (∃ s, x = PyStr s) →
       Signature_verify self (PyBytes pk) (PyBytes msg) x w
       = (Raise TypeError, w)).
Proof.
  split; [|split].
  - intros. reflexivity.
  - intros x msg sig [->|[s ->]]; reflexivity.
  - intros pk msg x [->|[s ->]]; reflexivity.
Qed.




(** ** What never leaves the warmup and the stability loop *)

Section Containment.
Variable E : env.

Lemma contains_ret {A} (a : A) : contains_Exceptions (mret a).
Proof. by intros w e. Qed.

Lemma contains_logger lvl m : contains_Exceptions (logger lvl m).
Proof. by intros w e. Qed.

Lemma contains_time : contains_Exceptions (time E).
Proof. by intros w e. Qed.

Lemma contains_bind {A B} (c : M A) (f : A → M B) :
  contains_Exceptions c → (∀ a, contains_Exceptions (f a)) →
  contains_Exceptions (c ≫= f).
Proof.
  intros Hc Hf w e. unfold mbind, M_bind. specialize (Hc w).
  destruct (c w) as [[a|e'|] w1]; cbn in *; [apply Hf|by intros [= <-]; auto|done].
Qed.

(** [try: body  except Exception: handler] lets no [Exception] of the body
    through. *)
Lemma contains_try_except {A} (body : M A) (handler : exn → M A) :
  (∀ e, contains_Exceptions (handler e)) →
  contains_Exceptions (try_except body (except_Exception handler)).
Proof.
  intros Hh w e. unfold try_except, except_Exception.
  destruct (body w) as [[a|e'|] w1]; cbn; [done| |done].
  destruct (is_Exception e') eqn:He'; [apply Hh|].
  cbn. by intros [= <-].
Qed.

Lemma contains_for_range {St} n (body : St → M St) s :
  (∀ s, contains_Exceptions (body s)) →
  contains_Exceptions (for_range n body s).
Proof.
  intros Hb. revert s. induction n as [|n IH]; intros s.
  - apply contains_ret.
  - simpl. by apply contains_bind.
Qed.

Lemma contains_for_each {A St} (xs : list A) (body : A → St → M St) s :
  (∀ x s, contains_Exceptions (body x s)) →
  contains_Exceptions (for_each xs body s).
Proof.
  intros Hb. revert s. induction xs as [|x xs IH]; intros s.
  - apply contains_ret.
  - simpl. by apply contains_bind.
Qed.

(** X10. The warmup swallows every [Exception] of [keygen], whatever the
    provider does; only a cancellation can leave it. *)
Theorem warmup_swallows_Exceptions (alg : CryptoAlgorithm) (iterations : Z)
    (w : world) (e : exn) :
  (run_warmup alg iterations w).1 = Raise e → is_Exception e = false.
Proof.
  revert w e. change (contains_Exceptions (run_warmup alg iterations)).
  unfold run_warmup. apply contains_bind; [apply contains_logger|].
  intros _. apply contains_for_range. intros _.
  apply contains_try_except. intros _. apply contains_ret.
Qed.

Lemma contains_stability_loop fuel algs start_time end_time duration it :
  contains_Exceptions
    (stability_loop E fuel algs start_time end_time duration it).
Proof.
  revert it. induction fuel as [|fuel IH]; intros it; [by intros w e|].
  simpl. apply contains_bind; [apply contains_time|]. intros now.
  destruct (Qltb now end_time); [|apply contains_ret].
  apply contains_bind.
  { apply contains_for_each. intros alg _.
    apply contains_try_except. intros e. apply contains_logger. }
  intros _. apply contains_bind; [|intros _; apply IH].
  destruct (_ =? 0).
  - apply contains_bind; [apply contains_time|].
    intros t. apply contains_logger.
  - apply contains_ret.
Qed.

Lemma stability_test_contained (fuel : nat)
    (algs : list CryptoAlgorithm) (duration : Q) (w : world) (e : exn) :
  (run_long_stability_test E fuel algs duration w).1 = Raise e →
  is_Exception e = false.
Proof.
  revert w e.
  change (contains_Exceptions (run_long_stability_test E fuel algs duration)).
  unfold run_long_stability_test.
  apply contains_bind; [apply contains_logger|]. intros _.
  apply contains_bind; [apply contains_time|]. intros t.
  apply contains_bind; [apply contains_stability_loop|]. intros _.
  apply contains_logger.
Qed.
(** X11. No [Exception] leaves the stability phase: a failing handle is logged
    and the loop goes on. *)
Theorem stability_test_contains_Exceptions (fuel : nat)
    (algs : list CryptoAlgorithm) (duration : Q) (w : world) (e : exn) :
  (run_long_stability_test E fuel algs duration w).1 = Raise e →
  is_Exception e = false.
Proof. apply stability_test_contained. Qed.
End Containment.

(** ** More on the resource monitor *)

Section Summary.
Local Open Scope Q_scope.



End Summary.

Section MonitorLifecycle.
Variable E : env.

(** The sampling loop only appends samples, at most one per pass,
    whichever way it ends. *)
Lemma monitor_loop_appends (ticks : list tick) (w : world) :
  ∃ l, (_monitor_loop ticks w).2 = record_samples l w
       ∧ (length l <= length ticks)%nat.
Proof.
  revert w. induction ticks as [|t ticks IH]; intros w.
  - by exists [].
  - simpl. unfold_M.
    destruct (tick_process_cpu_percent t) as [cpu|e|];
      [|exists []; split; [done|simpl; lia]..].
    destruct (tick_memory_info t) as [rss|e|];
      [|destruct e; exists []; split; (done || simpl; lia)
       |exists []; split; [done|simpl; lia]].
    destruct (tick_system_cpu_percent t) as [sys|e|];
      [|exists []; split; [done|simpl; lia]..].
    destruct (tick_cpu_freq t) as [f|e|];
      [| |exists []; split; [done|simpl; lia]].
    + edestruct IH as (l & Hl & Hlen). eexists (_ :: l). rewrite Hl.
      split; [done|simpl; lia].
    + destruct (is_Exception e); [|exists []; split; [done|simpl; lia]].
      edestruct IH as (l & Hl & Hlen). eexists (_ :: l). cbn. rewrite Hl.
      split; [done|simpl; lia].
Qed.

(** X13. [stop] always returns: the flag is set, no sampling thread is left
    running, the samples only grow, and a configured output file holds
    them unless the write fails, in which case the failure is logged. *)
Theorem monitor_stop_always_returns (self : SystemMonitor) (w : world) :
  ∃ w' l,
    stop E self w = (Ok (), w')
    ∧ stop_event w' = true
    ∧ thread w' = match thread w with Started => Joined | t => t end
    ∧ data_points w' = data_points w ++ l
    ∧ (length l <= length (sampler_ticks E))%nat
    ∧ micro_benchmarks w' = micro_benchmarks w
    ∧ match output_file self with
      | Some (String c p) =>
          if writable E (String c p)
          then files w' = <[String c p := MonitorDoc (data_points w')]>
                            (files w)
          else files w' = files w
               ∧ (ERROR, Failed_to_save_monitor_data OSError) ∈ log w'
      | _ => files w' = files w
      end.
Proof.
  destruct (monitor_loop_appends (sampler_ticks E) (set_stop_event true w))
    as (l & Hl & Hlen).
  destruct (record_samples_fields l (set_stop_event true w))
    as (Hlog & Hwall & Hfiles & Hstop & Hth & Hmicro).
  pose proof (record_samples_data_points l (set_stop_event true w)) as Hdp.
  cbn in Hlog, Hwall, Hfiles, Hstop, Hth, Hmicro, Hdp.
  unfold stop, join, run_thread, _save_data, write_file. unfold_M.
  destruct (thread w) eqn:Hthread; cbn; rewrite ?Hthread; cbn;
    rewrite ?Hl; cbn;
    destruct (output_file self) as [[|c p]|]; cbn;
    try (destruct (writable E (String c p)) eqn:Hwr; cbn).
  all: match goal with
       | Ht : thread _ = Started, Hx : _ = record_samples ?l0 _ |- _ =>
           eexists; exists l0
       | _ => eexists; exists (@nil ResourceSample)
       end.
  all: split; [reflexivity|]; cbn;
    rewrite ?Hthread, ?Hdp, ?Hfiles, ?Hstop, ?Hmicro, ?Hlog, ?app_nil_r.
  all: repeat (split; [done || (simpl; lia)|]); try done.
  all: apply elem_of_app; right; by left.
Qed.
End MonitorLifecycle.

(** ** More on [run] *)

Section RunTheorems.
Context `{FloatSqrt}.
Variable E : env.

Lemma run_outcome (self : BenchmarkRunner) (fuel : nat)
    (w : world) (metadata : Metadata) (w0 w1 : world) (o : outcome unit) :
  preflight_and_start E self w = (Ok metadata, w0) →
  phases E fuel (self_config self) w0 = (o, w1) →
  o ≠ OutOfFuel →
  (∀ p, writable E p = true) →
  ∃ w', run E self fuel w = (after_handlers o, w')
        ∧ stop_event w' = true ∧ thread w' ≠ Started
        ∧ files w' !! results_path E self w1
          = Some (ResultDoc (stamped E metadata w1) (micro_benchmarks w1)).
Proof.
  intros Hpre Hphases Ho Hwr.
  rewrite (run_after_preflight _ _ _ _ _ _ Hpre).
  unfold try_finally, try_except, run_handlers, except_Exception.
  rewrite Hphases.
  destruct o as [[]|e|]; [| |done].
  - destruct (finalize_spec E self metadata w1 Hwr)
      as (w' & -> & Hstop & Hth & Hfile & _).
    exists w'. done.
  - destruct (bool_decide_reflect (e = KeyboardInterrupt)) as [->|Hki].
    + destruct (finalize_spec E self metadata
                  (add_log INFO Benchmark_interrupted w1) Hwr)
        as (w' & Hfin & Hstop & Hth & Hfile & _).
      exists w'. unfold logger, modify. rewrite Hfin. done.
    + destruct (is_Exception e) eqn:He.
      * destruct (finalize_spec E self metadata
                    (add_log ERROR (Benchmark_failed e) w1) Hwr)
          as (w' & Hfin & Hstop & Hth & Hfile & _).
        exists w'. unfold logger, modify. rewrite Hfin. cbn.
        rewrite bool_decide_eq_false_2 by done. rewrite He. done.
      * destruct (finalize_spec E self metadata w1 Hwr)
          as (w' & -> & Hstop & Hth & Hfile & _).
        exists w'. cbn. rewrite bool_decide_eq_false_2 by done.
        rewrite He. done.
Qed.

(** X14. However the benchmark phases end, [run] stops the monitor and writes
    the results gathered so far; it returns normally unless the phases
    raised something that is neither an [Exception] nor a
    [KeyboardInterrupt]. *)
Theorem run_always_finalizes (self : BenchmarkRunner) (fuel : nat)
    (w : world) (metadata : Metadata) (w0 w1 : world) (o : outcome unit) :
  preflight_and_start E self w = (Ok metadata, w0) →
  phases E fuel (self_config self) w0 = (o, w1) →
  o ≠ OutOfFuel →
  (∀ p, writable E p = true) →
  ∃ w', run E self fuel w = (after_handlers o, w')
        ∧ stop_event w' = true ∧ thread w' ≠ Started
        ∧ files w' !! results_path E self w1
          = Some (ResultDoc (stamped E metadata w1) (micro_benchmarks w1)).
Proof. apply run_outcome. Qed.

Lemma finalize_unwritable (self : BenchmarkRunner) (metadata : Metadata)
    (w : world) :
  writable E (results_path E self w) = false →
  ∃ w', finalize E self metadata w = (Raise OSError, w')
        ∧ stop_event w' = true ∧ thread w' ≠ Started.
Proof.
  intros Hwr.
  destruct (stop_spec E (monitor self) w)
    as (w1 & Hstop & Hs1 & Ht1 & Hwl1 & Hm1 & l1 & Hl1).
  unfold finalize. rewrite (bind_Ok _ _ _ _ _ Hstop).
  unfold now_isoformat, time, write_file. unfold_M.
  unfold results_path in Hwr. rewrite Hwl1, Hwr. cbn.
  eexists. split; [reflexivity|]. done.
Qed.

(** X15. The write of the result document is not guarded: when the sink
    refuses it, [run] raises [OSError], also after phases that ended
    well; the monitor has been stopped by then. *)
Theorem run_raises_when_sink_refuses (self : BenchmarkRunner) (fuel : nat)
    (w : world) (metadata : Metadata) (w0 w1 : world) (o : outcome unit) :
  preflight_and_start E self w = (Ok metadata, w0) →
  phases E fuel (self_config self) w0 = (o, w1) →
  o ≠ OutOfFuel →
  writable E (results_path E self w1) = false →
  ∃ w', run E self fuel w = (Raise OSError, w')
        ∧ stop_event w' = true ∧ thread w' ≠ Started.
Proof.
  intros Hpre Hphases Ho Hwr.
  rewrite (run_after_preflight _ _ _ _ _ _ Hpre).
  unfold try_finally, try_except, run_handlers, except_Exception.
  rewrite Hphases.
  destruct o as [[]|e|]; [| |done].
  - destruct (finalize_unwritable self metadata w1 Hwr)
      as (w' & -> & Hstop & Hth). by exists w'.
  - destruct (bool_decide_reflect (e = KeyboardInterrupt)) as [->|Hki].
    + destruct (finalize_unwritable self metadata
                  (add_log INFO Benchmark_interrupted w1) Hwr)
        as (w' & Hfin & Hstop & Hth).
      exists w'. unfold logger, modify. by rewrite Hfin.
    + destruct (is_Exception e) eqn:He.
      * destruct (finalize_unwritable self metadata
                    (add_log ERROR (Benchmark_failed e) w1) Hwr)
          as (w' & Hfin & Hstop & Hth).
        exists w'. unfold logger, modify. by rewrite Hfin.
      * destruct (finalize_unwritable self metadata w1 Hwr)
          as (w' & -> & Hstop & Hth). by exists w'.
Qed.

Lemma keeps_full_cycle alg : keeps_micro (full_cycle E alg).
Proof.
  unfold full_cycle. apply keeps_bind; [apply keeps_keygen|].
  intros [pk sk]. destruct (class alg).
  - apply keeps_bind; [apply keeps_encaps|]. intros [ct ss].
    apply keeps_bind; [apply keeps_decaps|]. intros _. apply keeps_ret.
  - apply keeps_bind; [apply keeps_urandom|]. intros msg.
    apply keeps_bind; [apply keeps_sign|]. intros sig.
    apply keeps_bind; [apply keeps_verify|]. intros _. apply keeps_ret.
Qed.

Lemma keeps_stability_loop fuel algs start_time end_time duration it :
  keeps_micro (stability_loop E fuel algs start_time end_time duration it).
Proof.
  revert it. induction fuel as [|fuel IH]; intros it; [done|].
  simpl. apply keeps_bind; [apply keeps_time|]. intros now.
  destruct (Qltb now end_time); [|apply keeps_ret].
  apply keeps_bind.
  { apply keeps_for_each. intros alg _.
    apply keeps_except_Exception; [apply keeps_full_cycle|].
    intros e. apply keeps_logger. }
  intros _. apply keeps_bind; [|intros _; apply IH].
  destruct (_ =? 0).
  - apply keeps_bind; [apply keeps_time|]. intros t. apply keeps_logger.
  - apply keeps_ret.
Qed.

Lemma keeps_run_long_stability_test fuel algs duration :
  keeps_micro (run_long_stability_test E fuel algs duration).
Proof.
  unfold run_long_stability_test.
  apply keeps_bind; [apply keeps_logger|]. intros _.
  apply keeps_bind; [apply keeps_time|]. intros t.
  apply keeps_bind; [apply keeps_stability_loop|]. intros _.
  apply keeps_logger.
Qed.

Lemma keeps_collect_algs ty items algs :
  keeps_micro (collect_algs E ty items algs).
Proof.
  unfold collect_algs. destruct items as [items|]; [|apply keeps_ret].
  apply keeps_for_each. intros item acc.
  apply keeps_bind; [apply keeps_get_algorithm|]. intros alg.
  apply keeps_ret.
Qed.

(** X16. After phases that end well, the result document has an entry for
    every configured algorithm and for nothing else. *)
Theorem completed_run_reports_every_algorithm (self : BenchmarkRunner)
    (fuel : nat) (w : world) (metadata : Metadata) (w0 w1 : world) :
  preflight_and_start E self w = (Ok metadata, w0) →
  phases E fuel (self_config self) w0 = (Ok (), w1) →
  (∀ p, writable E p = true) →
  ∃ w' micro,
    run E self fuel w = (Ok (), w')
    ∧ files w' !! results_path E self w1
      = Some (ResultDoc (stamped E metadata w1) micro)
    ∧ dom micro
      = list_to_set ((λ entry, item_name entry.2)
                       <$> configured (self_config self)).
Proof.
  intros Hpre Hphases Hwr.
  destruct (run_outcome self fuel w metadata w0 w1 (Ok ())
              Hpre Hphases ltac:(done) Hwr)
    as (w' & Hrun & _ & _ & Hfile).
  exists w', (micro_benchmarks w1). split; [exact Hrun|]. split; [done|].
  unfold phases in Hphases.
  set (cfg := self_config self) in *.
  pose proof (micro_phase_for_each E cfg w0) as Hmicro.
  unfold mbind, M_bind in Hphases, Hmicro.
  destruct (benchmark_all E "kem" _ _ w0) as [[[]|e|] wa]; [|done|done].
  destruct (benchmark_all E "sign" _ _ wa) as [[[]|e|] wb] eqn:Hb;
    [|done|done].
  symmetry in Hmicro.
  apply benchmarked_names in Hmicro.
  rewrite (preflight_and_start_micro _ _ _ _ _ Hpre) in Hmicro.
  rewrite dom_empty_L, union_empty_r_L in Hmicro. rewrite <- Hmicro.
  pose proof (keeps_collect_algs "kem" (algorithms_kem cfg) [] wb) as Hk1.
  destruct (collect_algs E "kem" _ _ wb) as [[a1|e|] wc]; [|done|done].
  pose proof (keeps_collect_algs "sign" (algorithms_sign cfg) a1 wc) as Hk2.
  destruct (collect_algs E "sign" _ _ wc) as [[a2|e|] wd]; [|done|done].
  pose proof (keeps_run_long_stability_test fuel a2
                (long_run_duration_seconds cfg) wd) as Hk3.
  rewrite Hphases in Hk3. cbn in Hk1, Hk2, Hk3. congruence.
Qed.
End RunTheorems.

(** ** Parameter sweeps of the micro-benchmark phase *)

Section PayloadSweep.
Context `{FloatSqrt}.
Variable E : env.
Variable alg : CryptoAlgorithm.
Hypothesis Hclass : class alg = KEM.
Hypothesis Hworks : kem_provider_works (module alg).

Lemma stats_of_trials (l : list Z) :
  length l = 1000%nat ∧ Forall timing_sample l →
  ∃ s, _calculate_stats l = Ok s.
Proof.
  intros [Hl Hs]. destruct (calculate_stats_nonempty l) as (s & Hstat & _).
  - intros ->. discriminate Hl.
  - by apply timing_samples_fit.
  - by exists s.
Qed.

Lemma payload_sweep (pk sk : bytes) (sizes : list Z)
    (results : gmap string StatSummary) (w : world) :
  ∃ results' w',
    for_each sizes
      (λ size results,
         '(enc_latencies, dec_latencies) ←
           kem_trials E alg (PyBytes pk) (PyBytes sk) 1000;
         e ← lift (_calculate_stats enc_latencies);
         let results := <["encaps_size_" +:+ pretty size := e]> results in
         d ← lift (_calculate_stats dec_latencies);
         mret (<["decaps_size_" +:+ pretty size := d]> results))
      results w = (Ok results', w')
    ∧ dom results'
      = dom results
        ∪ list_to_set (sizes ≫= λ size, ["encaps_size_" +:+ pretty size;
                                          "decaps_size_" +:+ pretty size]).
Proof.
  revert results w. induction sizes as [|size sizes IH]; intros results w.
  - exists results, w. split; [done|]. simpl.
    by rewrite union_empty_r_L.
  - destruct (kem_trials_works E alg Hclass Hworks pk sk 1000 w)
      as (enc & dec & w1 & Htrials & Hlenc & Hldec).
    destruct (stats_of_trials enc Hlenc) as [e He].
    destruct (stats_of_trials dec Hldec) as [d Hd].
    destruct (IH (<["decaps_size_" +:+ pretty size := d]>
                    (<["encaps_size_" +:+ pretty size := e]> results)) w1)
      as (results' & w' & Hrest & Hdom).
    exists results', w'. split.
    + cbn [for_each]. erewrite bind_Ok; [exact Hrest|].
      rewrite (bind_Ok _ _ _ _ _ Htrials). cbv beta iota.
      rewrite (bind_Ok _ _ _ _ _ (lift_Ok _ _ _ He)).
      rewrite (bind_Ok _ _ _ _ _ (lift_Ok _ _ _ Hd)).
      reflexivity.
    + rewrite Hdom, !dom_insert_L. cbn [mbind list_bind app].
      rewrite !list_to_set_cons.
      apply set_eq. intros k.
      rewrite !elem_of_union, !elem_of_singleton. tauto.
Qed.

(** X17. For a KEM whose provider calls succeed, the record has the key
    [keygen] and, for every configured payload size, one [encaps_size_]
    and one [decaps_size_] key; the sizes default to [[32]]. *)
Theorem kem_record_keys (params : AlgorithmSpec) (w : world) :
  ∃ record w',
    run_micro_benchmarks E alg "kem" params w = (Ok record, w')
    ∧ dom record = kem_keys (default [32] (payload_sizes params)).
Proof.
  destruct (keygen_trials_works E alg Hclass Hworks 1000
              (add_log INFO (Running_micro_benchmarks (name alg)) w))
    as (kg & w1 & Hkg & Hlkg).
  destruct (stats_of_trials kg Hlkg) as [s1 Hs1].
  destruct (keygen_works alg Hclass Hworks w1) as (pk & sk & w2 & Hkeys).
  destruct (payload_sweep pk sk (default [32] (payload_sizes params))
              (<["keygen" := s1]> ∅) w2)
    as (record & w' & Hsweep & Hdom).
  exists record, w'. split.
  - unfold run_micro_benchmarks, run_micro_benchmarks_with. cbv zeta.
    rewrite (bind_Ok (logger _ _) _ w ()
               (add_log INFO (Running_micro_benchmarks (name alg)) w))
      by reflexivity.
    rewrite (bind_Ok _ _ _ _ _ Hkg).
    rewrite (bind_Ok _ _ _ _ _ (lift_Ok _ _ _ Hs1)).
    rewrite (bind_Ok _ _ _ _ _ Hkeys). cbv beta iota.
    rewrite bool_decide_eq_true_2 by done. exact Hsweep.
  - rewrite Hdom, dom_insert_L, dom_empty_L, union_empty_r_L. done.
Qed.
End PayloadSweep.

Section MessageSweep.
Context `{FloatSqrt}.
Variable E : env.
Variable alg : CryptoAlgorithm.
Hypothesis Hclass : class alg = Signature.
Hypothesis Hworks : sign_provider_works (module alg).

Lemma signature_keygen_works (w : world) :
  ∃ pk sk w', keygen alg w = (Ok (PyBytes pk, PyBytes sk), w').
Proof.
  destruct Hworks as (kg & sg & Hkg & _ & Hk & _).
  unfold keygen, Signature_keygen. rewrite Hclass. unfold getattr.
  rewrite Hkg. unfold_M.
  destruct (Hk (provider_calls w)) as (pk & sk & ->). cbn. eauto.
Qed.

Lemma sign_works (msg sk : bytes) (w : world) :
  ∃ sig w', sign alg (PyBytes msg) (PyBytes sk) w = (Ok (PyBytes sig), w').
Proof.
  destruct Hworks as (kg & sg & _ & Hsg & _ & Hs & _).
  unfold sign, Signature_sign. rewrite Hclass. unfold getattr.
  rewrite Hsg. unfold_M.
  destruct (Hs (PyBytes sk) (PyBytes msg) (provider_calls w)) as (sig & ->).
  cbn. eauto.
Qed.

Lemma verify_returns (pk msg sig : bytes) (w : world) :
  ∃ v w', verify alg (PyBytes pk) (PyBytes msg) (PyBytes sig) w = (Ok v, w').
Proof.
  destruct Hworks as (kg & sg & _ & _ & _ & _ & [Hv Ho] & Hvd & Hod).
  unfold verify. rewrite Hclass, Signature_verify_bytes.
  destruct (module alg ≫= mod_verify) as [vf|] eqn:Hvf.
  - specialize (Hv vf (PyBytes pk) (PyBytes msg) (PyBytes sig)
                  (provider_calls w) eq_refl).
    specialize (Hvd vf (PyBytes pk) (PyBytes msg) (PyBytes sig)
                  (provider_calls w) eq_refl).
    cbn. destruct (vf _ _ _ _) as [v|e|]; [by eauto| |done].
    rewrite (Hv e eq_refl). by eauto.
  - destruct (module alg ≫= mod_open) as [op|] eqn:Hop; [|by eauto].
    specialize (Ho op (PyBytes pk) (PyBytes sig) (provider_calls w) eq_refl).
    specialize (Hod op (PyBytes pk) (PyBytes sig) (provider_calls w)
                  eq_refl).
    cbn. destruct (op _ _ _) as [v|e|]; cbn; [by eauto| |done].
    rewrite (Ho e eq_refl). by eauto.
Qed.

Lemma sign_trials_works (pk sk msg : bytes) (n : nat) (w : world) :
  ∃ sgn ver w',
    sign_trials E alg (PyBytes pk) (PyBytes sk) (PyBytes msg) n w
    = (Ok (sgn, ver), w')
    ∧ (length sgn = n ∧ Forall timing_sample sgn)
    ∧ (length ver = n ∧ Forall timing_sample ver).
Proof.
  unfold sign_trials.
  match goal with
  | |- context [for_range n ?body ?s w] =>
      destruct (for_range_invariant
                  (λ k '(e, d), (length e = k ∧ Forall timing_sample e)
                                ∧ (length d = k ∧ Forall timing_sample d))
                  n body 0 s w)
        as ([sgn ver] & w' & Hrun & Hlen)
  end; [done| |by eauto].
  intros k [e d] w0 [[He Hes] [Hd Hds]]. unfold perf_counter.
  unfold mbind, mret, M_bind, M_ret.
  destruct (sign_works msg sk (count_perf_read w0)) as (sig & w1 & ->).
  destruct (verify_returns pk msg sig
              (count_perf_read (count_perf_read w1))) as (v & w2 & ->).
  eexists (_, _), _. split; [reflexivity|].
  rewrite !length_app. simpl.
  split; (split; [lia|by apply samples_snoc]).
Qed.

Lemma urandom_Ok (size : Z) (w : world) :
  0 <= size → ∃ msg w', urandom E size w = (Ok (PyBytes msg), w').
Proof.
  intros Hs. unfold urandom.
  destruct (Z.ltb_spec size 0) as [|_]; [lia|]. by eexists _, _.
Qed.

Lemma sign_sweep_step (pk sk : bytes) (size : Z)
    (results : gmap string StatSummary) (w : world) :
  0 <= size →
  ∃ s v w',
    sign_sweep_body E alg pk sk size results w
    = (Ok (<["verify_size_" +:+ pretty size := v]>
             (<["sign_size_" +:+ pretty size := s]> results)), w').
Proof.
  intros Hs. destruct (urandom_Ok size w Hs) as (msg & w0 & Hmsg).
  destruct (sign_trials_works pk sk msg 1000 w0)
    as (sgn & ver & w1 & Htrials & Hlsgn & Hlver).
  destruct (stats_of_trials sgn Hlsgn) as [s Hstat].
  destruct (stats_of_trials ver Hlver) as [v Hvstat].
  exists s, v, w1. unfold sign_sweep_body.
  rewrite (bind_Ok _ _ _ _ _ Hmsg).
  rewrite (bind_Ok _ _ _ _ _ Htrials). cbv beta iota.
  rewrite (bind_Ok _ _ _ _ _ (lift_Ok _ _ _ Hstat)).
  rewrite (bind_Ok _ _ _ _ _ (lift_Ok _ _ _ Hvstat)).
  reflexivity.
Qed.

Lemma message_sweep (pk sk : bytes) (sizes : list Z)
    (results : gmap string StatSummary) (w : world) :
  Forall (λ size, 0 <= size) sizes →
  ∃ results' w',
    for_each sizes (sign_sweep_body E alg pk sk) results w = (Ok results', w')
    ∧ dom results'
      = dom results
        ∪ list_to_set (sizes ≫= λ size, ["sign_size_" +:+ pretty size;
                                          "verify_size_" +:+ pretty size]).
Proof.
  intros Hall. revert results w.
  induction Hall as [|size sizes Hs _ IH]; intros results w.
  - exists results, w. split; [done|]. simpl. by rewrite union_empty_r_L.
  - destruct (sign_sweep_step pk sk size results w Hs)
      as (s & v & w1 & Hstep).
    destruct (IH (<["verify_size_" +:+ pretty size := v]>
                    (<["sign_size_" +:+ pretty size := s]> results)) w1)
      as (results' & w' & Hrest & Hdom).
    exists results', w'. split.
    + cbn [for_each]. by rewrite (bind_Ok _ _ _ _ _ Hstep).
    + rewrite Hdom, !dom_insert_L. cbn [mbind list_bind app].
      rewrite !list_to_set_cons.
      apply set_eq. intros k.
      rewrite !elem_of_union, !elem_of_singleton. tauto.
Qed.

(** A negative message size stops the sweep with [ValueError] (raised by
    [os.urandom]) when it is reached. *)
Lemma message_sweep_negative (pk sk : bytes) (pre post : list Z) (size : Z)
    (results : gmap string StatSummary) (w : world) :
  Forall (λ size, 0 <= size) pre → size < 0 →
  ∃ w', for_each (pre ++ size :: post) (sign_sweep_body E alg pk sk) results w
        = (Raise ValueError, w').
Proof.
  intros Hpre Hneg.
  destruct (message_sweep pk sk pre results w Hpre)
    as (results' & w1 & Hrun & _).
  exists w1. apply (for_each_stops _ _ _ _ _ _ _ _ _ _ Hrun).
  unfold sign_sweep_body, urandom.
  destruct (Z.ltb_spec size 0) as [_|]; [|lia]. reflexivity.
Qed.

Lemma run_micro_benchmarks_sign (params : AlgorithmSpec) (w : world) :
  ∃ s1 pk sk w2,
    run_micro_benchmarks E alg "sign" params w
    = for_each (default [32] (message_sizes params))
        (sign_sweep_body E alg pk sk) (<["keygen" := s1]> ∅) w2.
Proof.
  destruct (for_range_invariant
              (λ k l, length l = k ∧ Forall timing_sample l) 1000
              (λ latencies,
                 t ← _measure_time E (keygen alg);
                 mret (latencies ++ [t])) 0 []
              (add_log INFO (Running_micro_benchmarks (name alg)) w))
    as (kg & w1 & Hkg & Hlkg); [done| |].
  { intros k s w0 [Hk Hs]. unfold _measure_time, perf_counter.
    unfold mbind, mret, M_bind, M_ret.
    destruct (signature_keygen_works (count_perf_read w0))
      as (pk & sk & w1 & ->).
    eexists _, _. split; [reflexivity|]. split.
    - rewrite length_app. simpl. lia.
    - by apply samples_snoc. }
  destruct (stats_of_trials kg Hlkg) as [s1 Hs1].
  destruct (signature_keygen_works w1) as (pk & sk & w2 & Hkeys).
  exists s1, pk, sk, w2.
  unfold run_micro_benchmarks, run_micro_benchmarks_with. cbv zeta.
  rewrite (bind_Ok (logger _ _) _ w ()
             (add_log INFO (Running_micro_benchmarks (name alg)) w))
    by reflexivity.
  unfold keygen_trials. rewrite (bind_Ok _ _ _ _ _ Hkg).
  rewrite (bind_Ok _ _ _ _ _ (lift_Ok _ _ _ Hs1)).
  rewrite (bind_Ok _ _ _ _ _ Hkeys). cbv beta iota.
  rewrite bool_decide_eq_false_2 by done.
  rewrite bool_decide_eq_true_2 by done. reflexivity.
Qed.

(** X18. For a signature scheme whose provider works, the record has the key
    [keygen] and, for every configured message size, one [sign_size_] and
    one [verify_size_] key, whether the verifications succeed or not; the
    sizes default to [[32]]. *)
Theorem sign_record_keys (params : AlgorithmSpec) (w : world) :
  Forall (λ size, 0 <= size) (default [32] (message_sizes params)) →
  ∃ record w',
    run_micro_benchmarks E alg "sign" params w = (Ok record, w')
    ∧ dom record = sign_keys (default [32] (message_sizes params)).
Proof.
  intros Hsizes.
  destruct (run_micro_benchmarks_sign params w)
    as (s1 & pk & sk & w2 & ->).
  destruct (message_sweep pk sk _ (<["keygen" := s1]> ∅) w2 Hsizes)
    as (record & w' & Hsweep & Hdom).
  exists record, w'. split; [done|].
  rewrite Hdom, dom_insert_L, dom_empty_L, union_empty_r_L. done.
Qed.

(** X19. A negative message size makes the whole micro-benchmark of that
    algorithm raise [ValueError]: no record is returned, not even for the
    sizes already measured. *)
Theorem negative_message_size_raises (params : AlgorithmSpec)
    (pre post : list Z) (size : Z) (w : world) :
  message_sizes params = Some (pre ++ size :: post) →
  Forall (λ size, 0 <= size) pre → size < 0 →
  (run_micro_benchmarks E alg "sign" params w).1 = Raise ValueError.
Proof.
  intros Hparams Hpre Hneg.
  destruct (run_micro_benchmarks_sign params w)
    as (s1 & pk & sk & w2 & ->).
  rewrite Hparams. cbn [default from_option]. unfold id.
  destruct (message_sweep_negative pk sk pre post size
              (<["keygen" := s1]> ∅) w2 Hpre Hneg) as (w' & ->).
  done.
Qed.
End MessageSweep.

(** ** Timing samples *)

Section Samples.
Variable E : env.

Ltac adapter_frame :=
  intros w;
  unfold keygen, KEM_keygen, Signature_keygen, encaps, KEM_encaps, decaps,
    KEM_decaps, sign, Signature_sign, verify, Signature_verify;
  unfold_M; repeat (case_match; unfold_M; simplify_eq); cbn; try done.

Lemma keygen_keeps_perf_reads alg : keeps_perf_reads (keygen alg).
Proof. adapter_frame. Qed.

Lemma encaps_keeps_perf_reads alg pk : keeps_perf_reads (encaps alg pk).
Proof. adapter_frame. Qed.

Lemma decaps_keeps_perf_reads alg ct sk : keeps_perf_reads (decaps alg ct sk).
Proof. adapter_frame. Qed.

Lemma sign_keeps_perf_reads alg msg sk : keeps_perf_reads (sign alg msg sk).
Proof. adapter_frame. Qed.

Lemma verify_keeps_perf_reads alg pk msg sig :
  keeps_perf_reads (verify alg pk msg sig).
Proof. adapter_frame. Qed.

(** A counted loop that ends well has kept an invariant of its body. *)
Lemma for_range_Ok_invariant {St} (I : St → Prop) (n : nat)
    (body : St → M St) (s : St) (w : world) s' w' :
  I s →
  (∀ s w s' w', I s → body s w = (Ok s', w') → I s') →
  for_range n body s w = (Ok s', w') → I s'.
Proof.
  intros Hs Hbody. revert s w Hs.
  induction n as [|n IH]; intros s w Hs; simpl.
  - by intros [= <- _].
  - intros Hrun. apply bind_inv_Ok in Hrun as (s1 & w1 & Hb & Hrest).
    eapply IH; [|exact Hrest]. by eapply Hbody.
Qed.

Hypothesis Hclock : monotone_clock E.

(** One bracketed call: the difference of two successive clock reads. *)
Lemma bracket_nonneg {A} (c : M A) (w w1 w2 : world) (t0 t1 : Z) (a : A) :
  keeps_perf_reads c →
  perf_counter E w = (Ok t0, w1) → c w1 = (Ok a, w2) →
  (perf_counter E w2).1 = Ok t1 → 0 <= t1 - t0.
Proof.
  intros Hc. unfold perf_counter. intros [= <- <-] Hrun [= <-].
  pose proof (Hc (count_perf_read w)) as Hframe.
  rewrite Hrun in Hframe. cbn in Hframe. rewrite Hframe.
  pose proof (Hclock (perf_reads w)). lia.
Qed.

(** X20. With a clock that never goes back, every timing sample of the three
    timing loops is non-negative. *)
Theorem timing_samples_nonneg (alg : CryptoAlgorithm) (n : nat) (w : world) :
  (∀ l w', keygen_trials E alg n w = (Ok l, w') →
           Forall (λ t, 0 <= t) l)
  ∧ (∀ pk sk l1 l2 w', kem_trials E alg pk sk n w = (Ok (l1, l2), w') →
           Forall (λ t, 0 <= t) l1 ∧ Forall (λ t, 0 <= t) l2)
  ∧ (∀ pk sk msg l1 l2 w',
       sign_trials E alg pk sk msg n w = (Ok (l1, l2), w') →
       Forall (λ t, 0 <= t) l1 ∧ Forall (λ t, 0 <= t) l2).
Proof.
  split; [|split].
  - intros l w'. unfold keygen_trials.
    apply (for_range_Ok_invariant (λ l, Forall (λ t, 0 <= t) l));
      [constructor|].
    intros s w0 s' w0' Hs Hbody. unfold _measure_time in Hbody.
    apply bind_inv_Ok in Hbody as (t & w3 & Hm & [= <- _]).
    apply bind_inv_Ok in Hm as (t0 & w1 & Hp0 & Hm).
    apply bind_inv_Ok in Hm as (a & w2 & Hk & Hm).
    apply bind_inv_Ok in Hm as (t1 & w4 & Hp1 & [= <- _]).
    apply Forall_app. split; [done|]. constructor; [|constructor].
    eapply (bracket_nonneg (keygen alg)); [apply keygen_keeps_perf_reads
                                          |done|done|by rewrite Hp1].
  - intros pk sk l1 l2 w'. unfold kem_trials.
    apply (for_range_Ok_invariant
             (λ '(l1, l2), Forall (λ t, 0 <= t) l1
                           ∧ Forall (λ t, 0 <= t) l2));
      [by split; constructor|].
    intros [e d] w0 [e' d'] w0' [He Hd] Hbody.
    apply bind_inv_Ok in Hbody as (t0 & w1 & Hp0 & Hbody).
    apply bind_inv_Ok in Hbody as ([ct ss] & w2 & Henc & Hbody).
    apply bind_inv_Ok in Hbody as (t1 & w3 & Hp1 & Hbody).
    apply bind_inv_Ok in Hbody as (t2 & w4 & Hp2 & Hbody).
    apply bind_inv_Ok in Hbody as (r & w5 & Hdec & Hbody).
    apply bind_inv_Ok in Hbody as (t3 & w6 & Hp3 & [= <- <- _]).
    split; apply Forall_app; (split; [done|]); (constructor; [|constructor]).
    + eapply (bracket_nonneg (encaps alg pk));
        [apply encaps_keeps_perf_reads|done|done|by rewrite Hp1].
    + eapply (bracket_nonneg (decaps alg ct sk));
        [apply decaps_keeps_perf_reads|done|done|by rewrite Hp3].
  - intros pk sk msg l1 l2 w'. unfold sign_trials.
    apply (for_range_Ok_invariant
             (λ '(l1, l2), Forall (λ t, 0 <= t) l1
                           ∧ Forall (λ t, 0 <= t) l2));
      [by split; constructor|].
    intros [e d] w0 [e' d'] w0' [He Hd] Hbody.
    apply bind_inv_Ok in Hbody as (t0 & w1 & Hp0 & Hbody).
    apply bind_inv_Ok in Hbody as (sig & w2 & Hsig & Hbody).
    apply bind_inv_Ok in Hbody as (t1 & w3 & Hp1 & Hbody).
    apply bind_inv_Ok in Hbody as (t2 & w4 & Hp2 & Hbody).
    apply bind_inv_Ok in Hbody as (r & w5 & Hver & Hbody).
    apply bind_inv_Ok in Hbody as (t3 & w6 & Hp3 & [= <- <- _]).
    split; apply Forall_app; (split; [done|]); (constructor; [|constructor]).
    + eapply (bracket_nonneg (sign alg msg sk));
        [apply sign_keeps_perf_reads|done|done|by rewrite Hp1].
    + eapply (bracket_nonneg (verify alg pk msg sig));
        [apply verify_keeps_perf_reads|done|done|by rewrite Hp3].
Qed.
End Samples.

(** ** Termination of the stability phase *)

Section StabilityTermination.
Variable E : env.

Ltac wall_frame :=
  intros w;
  unfold full_cycle, urandom, keygen, KEM_keygen, Signature_keygen, encaps,
    KEM_encaps, decaps, KEM_decaps, sign, Signature_sign, verify,
    Signature_verify;
  unfold_M; repeat (case_match; unfold_M; simplify_eq); cbn; try done.

Lemma full_cycle_keeps_wall_reads alg : keeps_wall_reads (full_cycle E alg).
Proof. wall_frame. Qed.

Lemma stability_pass_spec (algs : list CryptoAlgorithm) (w : world) :
  Forall (λ alg, ∀ w, (full_cycle E alg w).1 ≠ OutOfFuel) algs →
  wall_reads (stability_pass E algs w).2 = wall_reads w
  ∧ (stability_pass E algs w).1 ≠ OutOfFuel.
Proof.
  unfold stability_pass. intros Hall. revert w.
  induction Hall as [|alg algs Halg _ IH]; intros w; [done|].
  cbn [for_each]. unfold mbind, M_bind, try_except, except_Exception.
  pose proof (full_cycle_keeps_wall_reads alg w) as Hframe.
  specialize (Halg w).
  destruct (full_cycle E alg w) as [[[]|e|] w1]; simpl in Hframe, Halg;
    [| |done].
  - destruct (IH w1) as [Hw Ho]. rewrite <- Hframe. by split.
  - destruct (is_Exception e); [|by split].
    unfold logger, modify.
    destruct (IH (add_log ERROR (Error_in_stability_test (name alg) e) w1))
      as [Hw Ho]. rewrite <- Hframe. by split.
Qed.

Lemma stability_loop_terminates (fuel K : nat) (algs : list CryptoAlgorithm)
    (start_time end_time duration : Q) (it : Z) (w : world) :
  clock_reaches E K end_time →
  Forall (λ alg, ∀ w, (full_cycle E alg w).1 ≠ OutOfFuel) algs →
  (0 < fuel)%nat → (K < wall_reads w + fuel)%nat →
  (stability_loop E fuel algs start_time end_time duration it w).1
  ≠ OutOfFuel.
Proof.
  intros Hclock Hall. revert it w.
  induction fuel as [|fuel IH]; intros it w Hpos Hfuel; [lia|].
  cbn [stability_loop]. unfold time. unfold mbind at 1, M_bind at 1.
  destruct (Qltb (time_time E (wall_reads w)) end_time) eqn:Hlt; [|done].
  assert (Hk : (wall_reads w < K)%nat).
  { destruct (decide (wall_reads w < K)%nat) as [|Hge]; [done|].
    apply Qltb_true in Hlt.
    pose proof (Hclock (wall_reads w) ltac:(lia)). lra. }
  fold (stability_pass E algs).
  destruct (stability_pass_spec algs (count_wall_read w) Hall) as [Hw Ho].
  unfold mbind, M_bind.
  destruct (stability_pass E algs (count_wall_read w)) as [[[]|e|] w1];
    cbn in *; [|done|done].
  destruct ((it + 1) mod 100 =? 0); cbn.
  - apply IH; [lia|cbn; lia].
  - apply IH; [lia|lia].
Qed.

(** X21. The stability phase ends once the wall clock has passed the deadline:
    with enough fuel for the clock reads that lie before it, the phase
    returns, or is cancelled, provided no handle's cycle hangs. *)
Theorem stability_test_terminates (fuel K : nat)
    (algs : list CryptoAlgorithm) (duration : Q) (w : world) :
  clock_reaches E K (time_time E (wall_reads w) + duration) →
  Forall (λ alg, ∀ w, (full_cycle E alg w).1 ≠ OutOfFuel) algs →
  (K < fuel)%nat →
  (run_long_stability_test E fuel algs duration w).1 = Ok ()
  ∨ ∃ e, (run_long_stability_test E fuel algs duration w).1 = Raise e
         ∧ is_Exception e = false.
Proof.
  intros Hclock Hall Hfuel.
  pose proof (stability_test_contained E fuel algs duration w)
    as Hcontains.
  assert (Hterm : (run_long_stability_test E fuel algs duration w).1
                  ≠ OutOfFuel).
  { unfold run_long_stability_test, time, logger, modify.
    unfold mbind, M_bind.
    pose proof (stability_loop_terminates fuel K algs
                  (time_time E (wall_reads w))
                  (time_time E (wall_reads w) + duration)%Q duration 0
                  (count_wall_read
                     (add_log INFO (Starting_stability_test duration) w))
                  Hclock Hall ltac:(lia) ltac:(cbn; lia)) as Hloop.
    cbn in *.
    destruct (stability_loop _ _ _ _ _ _ _ _) as [[[]|e|] w1]; done. }
  destruct (run_long_stability_test E fuel algs duration w) as [[[]|e|] w1];
    cbn in *; [by left|right|done].
  exists e. split; [done|]. by apply Hcontains.
Qed.
End StabilityTermination.

(** ** Examples for the further properties *)

Local Open Scope Z_scope.

Lemma kem_module_correct :
  kem_correct_for (λ _ _, Ok (blob 3, blob 2)) (λ _ _ _, Ok (blob 2))
    [Byte.x01] [Byte.x02].
Proof.
  intros n ct0 ss0 ct' ss' n' [= <- <-] [= <-] [= <-].
  eexists. split; reflexivity.
Qed.

Lemma kem_round_trip_witness :
  KEM_decaps (handle KEM "ML-KEM-512" (Some kem_module)) (blob 3)
    (PyBytes [Byte.x02]) (count_provider_call initial_world)
  = (Ok (blob 2), count_provider_call (count_provider_call initial_world)).
Proof.
  apply (kem_round_trip (handle KEM "ML-KEM-512" (Some kem_module))
           _ _ [Byte.x01] [Byte.x02] (blob 3) (blob 2) initial_world
           (count_provider_call initial_world)
           eq_refl eq_refl kem_module_correct eq_refl).
Defined.

Lemma sign_module_accepts :
  verify_accepts (λ _ _ _, Ok (blob 6)) (λ _ _ _ _, Ok (PyBool true))
    [Byte.x01] [Byte.x02].
Proof. intros msg n sig0 sig n' _ _. reflexivity. Qed.

Lemma sign_then_verify_witness :
  Signature_verify (handle Signature "ML-DSA-44" (Some sign_module))
    (PyBytes [Byte.x01]) (PyBytes [Byte.x03]) (blob 6)
    (count_provider_call initial_world)
  = (Ok (PyBool true),
     count_provider_call (count_provider_call initial_world)).
Proof.
  destruct (sign_then_verify
              (handle Signature "ML-DSA-44" (Some sign_module))
              _ [Byte.x01] [Byte.x02] [Byte.x03] (blob 6) initial_world
              (count_provider_call initial_world) eq_refl
              (or_introl (ex_intro _ _ (conj eq_refl sign_module_accepts)))
              eq_refl) as (sb & Hsb & Hv).
  exact Hv.
Defined.

Lemma verify_open_mismatch_witness :
  Signature_verify (handle Signature "Falcon-512" (Some open_module))
    (PyBytes [Byte.x01]) (PyBytes [Byte.x03]) (PyBytes [Byte.x04])
    initial_world
  = (Ok (PyBool false), count_provider_call initial_world).
Proof.
  apply (verify_open_mismatch
           (handle Signature "Falcon-512" (Some open_module)) _
           [Byte.x01] [Byte.x03] [Byte.x04] [Byte.x04] initial_world
           eq_refl eq_refl eq_refl).
  discriminate.
Defined.

Lemma warmup_swallows_Exceptions_witness :
  (run_warmup (handle KEM "ML-KEM-768" (Some interrupted_module)) 5
     initial_world).1 = Raise KeyboardInterrupt
  ∧ is_Exception KeyboardInterrupt = false.
Proof.
  assert (Hrun : (run_warmup
                    (handle KEM "ML-KEM-768" (Some interrupted_module)) 5
                    initial_world).1 = Raise KeyboardInterrupt)
    by (vm_compute; reflexivity).
  split; [exact Hrun|].
  exact (warmup_swallows_Exceptions _ _ _ _ Hrun).
Defined.

Lemma stability_test_contains_Exceptions_witness :
  (run_long_stability_test lab_env 100
     [handle KEM "ML-KEM-768" (Some interrupted_module)] 10
     initial_world).1 = Raise KeyboardInterrupt
  ∧ is_Exception KeyboardInterrupt = false.
Proof.
  assert (Hrun : (run_long_stability_test lab_env 100
                    [handle KEM "ML-KEM-768" (Some interrupted_module)] 10
                    initial_world).1 = Raise KeyboardInterrupt)
    by (vm_compute; reflexivity).
  split; [exact Hrun|].
  exact (stability_test_contains_Exceptions _ _ _ _ _ _ Hrun).
Defined.

Lemma run_always_finalizes_witness :
  ∃ w', run lab_env (lab_runner interrupted_kems) 100 initial_world
        = (Ok (), w')
        ∧ stop_event w' = true ∧ thread w' ≠ Started
        ∧ ∃ path metadata micro,
            files w' !! path = Some (ResultDoc metadata micro).
Proof.
  run_to Hpre (preflight_and_start lab_env (lab_runner interrupted_kems)
                 initial_world).
  match type of Hpre with
  | _ = (_, ?w0) =>
      run_to Hint (phases lab_env 100 (lab_config interrupted_kems) w0)
  end.
  destruct (run_always_finalizes lab_env (lab_runner interrupted_kems)
              100 initial_world _ _ _ _ Hpre Hint ltac:(discriminate)
              (λ _, eq_refl))
    as (w' & Hrun & Hstop & Hth & Hfile).
  exists w'. split; [exact Hrun|]. split; [exact Hstop|].
  split; [exact Hth|]. eauto.
Defined.

Lemma run_raises_when_sink_refuses_witness :
  ∃ w', run sealed_env (lab_runner two_kems) 100 initial_world
        = (Raise OSError, w')
        ∧ stop_event w' = true ∧ thread w' ≠ Started.
Proof.
  run_to Hpre (preflight_and_start sealed_env (lab_runner two_kems)
                 initial_world).
  match type of Hpre with
  | _ = (_, ?w0) =>
      run_to Hph (phases sealed_env 100 (lab_config two_kems) w0)
  end.
  exact (run_raises_when_sink_refuses sealed_env (lab_runner two_kems) 100
           initial_world _ _ _ _ Hpre Hph ltac:(discriminate) eq_refl).
Defined.

Lemma completed_run_reports_every_algorithm_witness :
  ∃ w' micro,
    run lab_env (lab_runner one_kem) 100 initial_world = (Ok (), w')
    ∧ (∃ path metadata,
         files w' !! path = Some (ResultDoc metadata micro))
    ∧ dom micro = {["ML-KEM-512"]}.
Proof.
  run_to Hpre (preflight_and_start lab_env (lab_runner one_kem)
                 initial_world).
  match type of Hpre with
  | _ = (_, ?w0) =>
      run_to Hph (phases lab_env 100 (lab_config one_kem) w0)
  end.
  destruct (completed_run_reports_every_algorithm lab_env
              (lab_runner one_kem) 100 initial_world _ _ _ Hpre Hph
              (λ _, eq_refl))
    as (w' & micro & Hrun & Hfile & Hdom).
  exists w', micro. split; [exact Hrun|]. split; [eauto|].
  rewrite Hdom. vm_compute. reflexivity.
Defined.

Lemma sign_module_works : sign_provider_works (Some sign_module).
Proof.
  eexists _, _. split; [reflexivity|]. split; [reflexivity|].
  split; [intros; by eexists _, _|]. split; [intros; by eexists|].
  split; [split|split].
  - intros f a b c n [= <-] e [=].
  - intros g a b n [=].
  - intros vf a b c n [= <-]. discriminate.
  - intros op a b n [=].
Qed.

Lemma kem_record_keys_witness :
  ∃ record w',
    run_micro_benchmarks lab_env (handle KEM "ML-KEM-512" (Some kem_module))
      "kem"
      {| item_name := "ML-KEM-512"; item_implementation := "pqcrypto";
         payload_sizes := Some [16; 64]; message_sizes := None;
         other_keys := [] |} initial_world = (Ok record, w')
    ∧ dom record
      = {[ "keygen"; "encaps_size_16"; "decaps_size_16";
           "encaps_size_64"; "decaps_size_64" ]}.
Proof.
  destruct (kem_record_keys lab_env
              (handle KEM "ML-KEM-512" (Some kem_module)) eq_refl
              kem_module_works
              {| item_name := "ML-KEM-512";
                 item_implementation := "pqcrypto";
                 payload_sizes := Some [16; 64]; message_sizes := None;
                 other_keys := [] |} initial_world)
    as (record & w' & Hrun & Hdom).
  exists record, w'. split; [exact Hrun|]. rewrite Hdom.
  vm_compute. reflexivity.
Defined.

Lemma sign_record_keys_witness :
  ∃ record w',
    run_micro_benchmarks lab_env
      (handle Signature "ML-DSA-44" (Some sign_module)) "sign"
      (sign_item "ML-DSA-44" [0; 32]) initial_world = (Ok record, w')
    ∧ dom record
      = {[ "keygen"; "sign_size_0"; "verify_size_0";
           "sign_size_32"; "verify_size_32" ]}.
Proof.
  destruct (sign_record_keys lab_env
              (handle Signature "ML-DSA-44" (Some sign_module)) eq_refl
              sign_module_works (sign_item "ML-DSA-44" [0; 32])
              initial_world)
    as (record & w' & Hrun & Hdom).
  { repeat constructor; simpl; lia. }
  exists record, w'. split; [exact Hrun|]. rewrite Hdom.
  vm_compute. reflexivity.
Defined.

Lemma negative_message_size_raises_witness :
  (run_micro_benchmarks lab_env
     (handle Signature "ML-DSA-44" (Some sign_module)) "sign"
     (sign_item "ML-DSA-44" [32; -1; 64]) initial_world).1
  = Raise ValueError.
Proof.
  apply (negative_message_size_raises lab_env
           (handle Signature "ML-DSA-44" (Some sign_module)) eq_refl
           sign_module_works (sign_item "ML-DSA-44" [32; -1; 64])
           [32] [64] (-1) initial_world eq_refl).
  - repeat constructor. simpl. lia.
  - lia.
Defined.

Lemma lab_clock_monotone : monotone_clock lab_env.
Proof. intros n. simpl. unfold lab_clock. lia. Qed.

Lemma timing_samples_nonneg_witness :
  ∃ l, (keygen_trials lab_env (handle KEM "ML-KEM-512" (Some kem_module)) 3
          initial_world).1 = Ok l
       ∧ Forall (λ t, 0 <= t) l.
Proof.
  run_to Hrun (keygen_trials lab_env
                 (handle KEM "ML-KEM-512" (Some kem_module)) 3
                 initial_world).
  match type of Hrun with
  | _ = (Ok ?l, ?w') =>
      exists l; split; [by rewrite Hrun|];
      exact (proj1 (timing_samples_nonneg lab_env lab_clock_monotone
                      (handle KEM "ML-KEM-512" (Some kem_module)) 3
                      initial_world) l w' Hrun)
  end.
Defined.

Lemma kem_cycle_returns :
  Forall (λ alg, ∀ w, (full_cycle lab_env alg w).1 ≠ OutOfFuel)
    [handle KEM "ML-KEM-512" (Some kem_module)].
Proof. repeat constructor. intros w. cbn. discriminate. Qed.

Lemma lab_clock_reaches :
  clock_reaches lab_env 2
    (time_time lab_env (wall_reads initial_world) + 2).
Proof.
  intros k Hk. simpl. unfold Qle. simpl. lia.
Qed.

Lemma stability_test_terminates_witness :
  (run_long_stability_test lab_env 3
     [handle KEM "ML-KEM-512" (Some kem_module)] 2 initial_world).1 = Ok ()
  ∨ ∃ e, (run_long_stability_test lab_env 3
            [handle KEM "ML-KEM-512" (Some kem_module)] 2
            initial_world).1 = Raise e
         ∧ is_Exception e = false.
Proof.
  apply (stability_test_terminates lab_env 3 2
           [handle KEM "ML-KEM-512" (Some kem_module)] 2 initial_world
           lab_clock_reaches kem_cycle_returns).
  lia.
Defined.


Lemma verify_argument_guards_witness :
  Signature_verify (handle Signature "ML-DSA-44" (Some sign_module))
    PyNone (PyBytes [Byte.x01]) (PyBytes [Byte.x02]) initial_world
  = (Raise TypeError, initial_world).
Proof.
  apply (verify_argument_guards
           (handle Signature "ML-DSA-44" (Some sign_module)) initial_world).
  left. reflexivity.
Defined.
